(** * Feelings World: the card engine of [run.py]

    A shallow embedding of the rule engine inside [GameRoot] (card
    eligibility, weighted draw, effect resolution, flag propagation and
    ending determination), followed by the properties established about it.

    Conventions of the embedding.
    - Python [int] is [Z].  The only floats the engine ever produces are
      [1.5 * n] for an integer [n] and sums of such products with stat
      values; they are multiples of one half, and are represented exactly
      by their number of halves ([Float h] is the double [h/2]).  For
      [|n| < 2^51] the double arithmetic is exact; beyond that the rounded
      product stays on the same side of the clamp range, so the clamped
      value agrees with the exact one.  Converting an integer of magnitude
      [2^1024 - 2^970] or more to a double raises [OverflowError].
    - [random] is an explicit tape of integers threaded through every call
      that draws.
    - A raised exception is a value of [result]; an uncaught exception ends
      the application, so nothing is observed after it.
    - Kivy drawing, animation and text formatting are left out; of the
      widget tree only the children of [stage] and the [card_id] of the
      card widget are kept, since [decide] and [show_end] depend on them. *)

From stdpp Require Import gmap strings list fin_maps.
From Stdlib Require Import ZArith Lia.

Local Open Scope string_scope.
Local Open Scope Z_scope.

(** ** Exceptions and the random tape *)

Inductive exn : Type :=
| KeyError (k : string)
| ValueError
| TypeError
| IndexError
| OverflowError.

Inductive result (A : Type) : Type :=
| Ok (a : A)
| Raise (e : exn).

Arguments Ok {A} a.
Arguments Raise {A} e.

(** A computation that may draw from the tape and may raise. *)
Definition M (A : Type) : Type := list Z → result (A * list Z).

Definition ret {A} (a : A) : M A := λ tape, Ok (a, tape).

Definition raise {A} (e : exn) : M A := λ _, Raise e.

Definition bind {A B} (m : M A) (f : A → M B) : M B :=
  λ tape, match m tape with
          | Ok (a, tape') => f a tape'
          | Raise e => Raise e
          end.

Notation "'let*' x := m 'in' k" := (bind m (λ x, k))
  (at level 10, x name, m at level 100, k at level 200).

(** The next raw draw of the tape (an exhausted tape yields 0). *)
Definition draw : M Z := λ tape, Ok (hd 0 tape, tl tape).

(** ** Numbers *)

Inductive num : Type :=
| Int (z : Z)
| Float (h : Z).

(** The value of a number, counted in halves. *)
Definition halves (x : num) : Z :=
  match x with
  | Int z => 2 * z
  | Float h => h
  end.

Definition num_ltb (x y : num) : bool := halves x <? halves y.
Definition num_leb (x y : num) : bool := halves x <=? halves y.

(** [x + y] of Python: integer when both are, a float otherwise. *)
Definition num_add (x y : num) : num :=
  match x, y with
  | Int a, Int b => Int (a + b)
  | _, _ => Float (halves x + halves y)
  end.

(** Integers from this magnitude on do not convert to a double. *)
Definition float_overflow : Z := 2 ^ 1024 - 2 ^ 970.

(** [1.5 * n]: the integer is converted to a double first. *)
Definition mul_1_5 (n : Z) : M num :=
  if float_overflow <=? Z.abs n then raise OverflowError
  else ret (Float (3 * n)).

(** [min(a, b)] and [max(a, b)] of Python keep the first argument on ties. *)
Definition py_min (a b : num) : num := if num_ltb b a then b else a.
Definition py_max (a b : num) : num := if num_ltb a b then b else a.

(** [clamp(x, lo, hi) = max(lo, min(hi, x))] *)
Definition clamp (x lo hi : num) : num := py_max lo (py_min hi x).

(** ** Effect values and [roll] *)

(** [EffectValue = Union[int, List[int]]] *)
Inductive EffectValue : Type :=
| EInt (n : Z)
| EList (l : list Z).

(** [random.randint(a, b)]: uniform on [a..b], [ValueError] on an empty
    range. *)
Definition randint (a b : Z) : M Z :=
  if a <=? b then
    let* d := draw in ret (a + d mod (b - a + 1))
  else raise ValueError.

Definition roll (v : EffectValue) : M Z :=
  match v with
  | EList [a; b] => randint a b
  | EList _ => raise TypeError
  | EInt n => ret n
  end.

(** ** Data model *)

Module CardDef.
Record t : Type := mk {
  id : string;
  weight : Z;
  require_flags : list string;
  forbid_flags : list string;
  effects_left : list (string * EffectValue);
  effects_right : list (string * EffectValue);
  set_flags_left : list string;
  set_flags_right : list string;
  clear_flags_left : list string;
  clear_flags_right : list string
}.
End CardDef.

Module GameState.
Record t : Type := mk {
  stats : gmap string num;
  flags : gset string;
  turn : Z;
  last_card_id : option string
}.

Definition set_stats (s : gmap string num) (gs : t) : t :=
  mk s (flags gs) (turn gs) (last_card_id gs).
Definition set_flags (f : gset string) (gs : t) : t :=
  mk (stats gs) f (turn gs) (last_card_id gs).
Definition set_turn (n : Z) (gs : t) : t :=
  mk (stats gs) (flags gs) n (last_card_id gs).
Definition set_last_card_id (c : option string) (gs : t) : t :=
  mk (stats gs) (flags gs) (turn gs) c.
End GameState.

Module Translator.
Record t : Type := mk { data : gmap string string }.

(** [t(key)] without format arguments: [data.get(key, key)] *)
Definition t_ (tr : t) (key : string) : string :=
  default key (data tr !! key).
End Translator.

(** The deck payload read from [deck.json]. *)
Record Deck : Type := mkDeck {
  deck_stats : list string;
  deck_max_turns : Z;
  deck_cards : list CardDef.t
}.

(** What can sit on the stage: the card widget, or the end screen with its
    title, body and the five values of the final statistics line. *)
Inductive Widget : Type :=
| CardWidget
| EndScreen (title body : string) (final_stats : list num).

(** The endings, named by the key of their texts. *)
Inductive EndingKey : Type :=
| JOY_LOW | JOY_HIGH
| SADNESS_LOW | SADNESS_HIGH
| ANGER_LOW | ANGER_HIGH
| FEAR_LOW | FEAR_HIGH
| CALM_LOW | CALM_HIGH
| RESONANCE | HARMONY.

Definition ending_name (e : EndingKey) : string :=
  match e with
  | JOY_LOW => "JOY_LOW" | JOY_HIGH => "JOY_HIGH"
  | SADNESS_LOW => "SADNESS_LOW" | SADNESS_HIGH => "SADNESS_HIGH"
  | ANGER_LOW => "ANGER_LOW" | ANGER_HIGH => "ANGER_HIGH"
  | FEAR_LOW => "FEAR_LOW" | FEAR_HIGH => "FEAR_HIGH"
  | CALM_LOW => "CALM_LOW" | CALM_HIGH => "CALM_HIGH"
  | RESONANCE => "RESONANCE" | HARMONY => "HARMONY"
  end.

(** The pair [(tr.t("ending.<E>.title"), tr.t("ending.<E>.body"))]. *)
Definition ending_text (tr : Translator.t) (e : EndingKey) : string * string :=
  (Translator.t_ tr ("ending." +:+ ending_name e +:+ ".title"),
   Translator.t_ tr ("ending." +:+ ending_name e +:+ ".body")).

(** [s[k]] on a dict of numbers. *)
Definition getitem (s : gmap string num) (k : string) : M num :=
  match s !! k with
  | Some v => ret v
  | None => raise (KeyError k)
  end.

(** ** [GameRoot] *)

Module GameRoot.
Record t : Type := mk {
  tr : Translator.t;
  stats : list string;
  max_turns : Z;
  cards : list CardDef.t;
  gs : GameState.t;
  (** the value shown by the row of each declared stat *)
  stat_rows : gmap string num;
  (** [self.card.card_id] *)
  card_id : option string;
  (** the children of [self.stage] *)
  stage : list Widget
}.

Definition set_gs (x : GameState.t) (self : t) : t :=
  mk (tr self) (stats self) (max_turns self) (cards self) x
     (stat_rows self) (card_id self) (stage self).
Definition set_stat_rows (x : gmap string num) (self : t) : t :=
  mk (tr self) (stats self) (max_turns self) (cards self) (gs self)
     x (card_id self) (stage self).
Definition set_card_id (x : option string) (self : t) : t :=
  mk (tr self) (stats self) (max_turns self) (cards self) (gs self)
     (stat_rows self) x (stage self).
Definition set_stage (x : list Widget) (self : t) : t :=
  mk (tr self) (stats self) (max_turns self) (cards self) (gs self)
     (stat_rows self) (card_id self) x.

(** [{k: 50 for k in self.stats}] *)
Definition fresh_stats (ks : list string) : gmap string num :=
  foldl (λ m k, <[k := Int 50]> m) ∅ ks.

(** The loop of [refresh_stats] over the declared stats [ks]. *)
Fixpoint refresh_rows (ks : list string) (s rows : gmap string num)
  : M (gmap string num) :=
  match ks with
  | [] => ret rows
  | k :: ks' =>
      let* _row := getitem rows k in
      let* v := getitem s k in
      refresh_rows ks' s (<[k := v]> rows)
  end.

Definition refresh_stats (self : t) : M t :=
  let* rows := refresh_rows (stats self) (GameState.stats (gs self))
                 (stat_rows self) in
  ret (set_stat_rows rows self).

(** The test of the loop body of [eligible_cards]: none of the three
    [continue]s is taken. *)
Definition eligible (self : t) (c : CardDef.t) : bool :=
  if bool_decide (Some (CardDef.id c) = GameState.last_card_id (gs self))
  then false
  else if existsb (λ f, negb (bool_decide (f ∈ GameState.flags (gs self))))
            (CardDef.require_flags c)
  then false
  else if existsb (λ f, bool_decide (f ∈ GameState.flags (gs self)))
            (CardDef.forbid_flags c)
  then false
  else true.

Definition eligible_cards (self : t) : list CardDef.t :=
  let out := List.filter (eligible self) (cards self) in
  match out with
  | [] => cards self
  | _ :: _ => out
  end.

(** The bisection of [random.choices] on the running sums: the first
    element whose cumulative weight exceeds [x], the last one at the
    latest. *)
Fixpoint bisect (first : CardDef.t) (rest : list CardDef.t)
    (weights : list Z) (x : Z) : CardDef.t :=
  match rest, weights with
  | c :: rest', w :: ws => if x <? w then first else bisect c rest' ws (x - w)
  | _, _ => first
  end.

(** [random.choices(pool, weights=weights, k=1)[0]] *)
Definition choices (pool : list CardDef.t) (weights : list Z) : M CardDef.t :=
  match pool with
  | [] => raise IndexError
  | c :: rest =>
      let total := foldr Z.add 0 weights in
      if float_overflow <=? total then raise OverflowError
      else let* d := draw in ret (bisect c rest weights (d mod total))
  end.

Definition pick_card (self : t) : M CardDef.t :=
  let pool := eligible_cards self in
  let weights := map (λ c, Z.max 1 (CardDef.weight c)) pool in
  choices pool weights.

Definition next_card (self : t) : M t :=
  let* c := pick_card self in
  let self := set_gs (GameState.set_last_card_id (Some (CardDef.id c))
                        (gs self)) self in
  ret (set_card_id (Some (CardDef.id c)) self).

Fixpoint apply_effects (self : t) (effects : list (string * EffectValue))
  : M t :=
  match effects with
  | [] => ret self
  | (k, v) :: effects' =>
      match GameState.stats (gs self) !! k with
      | Some cur =>
          let* n := roll v in
          let* p := mul_1_5 n in
          let x := clamp (num_add cur p) (Int 0) (Int 100) in
          apply_effects
            (set_gs (GameState.set_stats
                       (<[k := x]> (GameState.stats (gs self))) (gs self))
                    self)
            effects'
      | None => apply_effects self effects'
      end
  end.

Definition apply_flags (self : t) (set_flags clear_flags : list string) : t :=
  let fl := foldl (λ s f, {[f]} ∪ s) (GameState.flags (gs self)) set_flags in
  let fl := foldl (λ s f, s ∖ {[f]}) fl clear_flags in
  set_gs (GameState.set_flags fl (gs self)) self.

(** The ending reached, by its key; [check_ending] returns its texts. *)
Definition check_ending_key (self : t) : M (option EndingKey) :=
  let s := GameState.stats (gs self) in
  let* joy := getitem s "joy" in
  if num_leb joy (Int 0) then ret (Some JOY_LOW) else
  let* joy := getitem s "joy" in
  if num_leb (Int 100) joy then ret (Some JOY_HIGH) else
  let* sadness := getitem s "sadness" in
  if num_leb sadness (Int 0) then ret (Some SADNESS_LOW) else
  let* sadness := getitem s "sadness" in
  if num_leb (Int 100) sadness then ret (Some SADNESS_HIGH) else
  let* anger := getitem s "anger" in
  if num_leb anger (Int 0) then ret (Some ANGER_LOW) else
  let* anger := getitem s "anger" in
  if num_leb (Int 100) anger then ret (Some ANGER_HIGH) else
  let* fear := getitem s "fear" in
  if num_leb fear (Int 0) then ret (Some FEAR_LOW) else
  let* fear := getitem s "fear" in
  if num_leb (Int 100) fear then ret (Some FEAR_HIGH) else
  let* calm := getitem s "calm" in
  if num_leb calm (Int 0) then ret (Some CALM_LOW) else
  let* calm := getitem s "calm" in
  if num_leb (Int 100) calm then ret (Some CALM_HIGH) else
  if max_turns self <=? GameState.turn (gs self) then
    if bool_decide ("resonance_ready" ∈ GameState.flags (gs self))
    then ret (Some RESONANCE)
    else ret (Some HARMONY)
  else ret None.

Definition check_ending (self : t) : M (option (string * string)) :=
  let* e := check_ending_key self in
  ret (ending_text (tr self) <$> e).

(** The closure [restart] of [show_end]. *)
Definition restart (self : t) : M t :=
  let self := set_stage [] self in
  let self := set_gs (GameState.mk (fresh_stats (stats self)) ∅ 0 None) self in
  let* self := refresh_stats self in
  let self := set_card_id None self in
  let self := set_stage (stage self ++ [CardWidget]) self in
  next_card self.

Definition show_end (self : t) (title body : string) : M t :=
  let self := set_stage [] self in
  let s := GameState.stats (gs self) in
  let* joy := getitem s "joy" in
  let* sadness := getitem s "sadness" in
  let* anger := getitem s "anger" in
  let* fear := getitem s "fear" in
  let* calm := getitem s "calm" in
  let final_line := [joy; sadness; anger; fear; calm] in
  ret (set_stage (stage self ++ [EndScreen title body final_line]) self).

Definition decide (self : t) (direction : string) : M t :=
  match card_id self with
  | None => ret self
  | Some cid =>
      if bool_decide (cid = "") then ret self else
      match List.find (λ x, bool_decide (CardDef.id x = cid)) (cards self) with
      | None => ret self
      | Some c =>
          let* self :=
            if bool_decide (direction = "L") then
              let* self := apply_effects self (CardDef.effects_left c) in
              ret (apply_flags self (CardDef.set_flags_left c)
                     (CardDef.clear_flags_left c))
            else
              let* self := apply_effects self (CardDef.effects_right c) in
              ret (apply_flags self (CardDef.set_flags_right c)
                     (CardDef.clear_flags_right c)) in
          let self :=
            set_gs (GameState.set_turn (GameState.turn (gs self) + 1)
                      (gs self)) self in
          let* self := refresh_stats self in
          let* ending := check_ending self in
          match ending with
          | Some (title, body) => show_end self title body
          | None => next_card self
          end
      end
  end.

(** [GameRoot.__init__] *)
Definition init (tr : Translator.t) (deck : Deck) : M t :=
  let self :=
    mk tr (deck_stats deck) (deck_max_turns deck) (deck_cards deck)
       (GameState.mk (fresh_stats (deck_stats deck)) ∅ 0 None)
       (fresh_stats (deck_stats deck)) None [CardWidget] in
  let* self := refresh_stats self in
  next_card self.
End GameRoot.

Module FeelingsApp.

Definition start_game (tr : Translator.t) (deck : Deck) : M GameRoot.t :=
  GameRoot.init tr deck.
End FeelingsApp.

(** ** Reachable games *)

(** The games a player can get to: the one built by [start_game], the result
    of any decision, and a restart from the end screen. *)
Inductive reachable (tr : Translator.t) (deck : Deck) : GameRoot.t → Prop :=
| reach_start tape g tape' :
    FeelingsApp.start_game tr deck tape = Ok (g, tape') →
    reachable tr deck g
| reach_decide g direction tape g' tape' :
    reachable tr deck g →
    GameRoot.decide g direction tape = Ok (g', tape') →
    reachable tr deck g'
| reach_restart g title body final tape g' tape' :
    reachable tr deck g →
    EndScreen title body final ∈ GameRoot.stage g →
    GameRoot.restart g tape = Ok (g', tape') →
    reachable tr deck g'.

(** Every value of the mapping lies in [0,100] (200 halves). *)
Definition stats_in_range (m : gmap string num) : Prop :=
  ∀ k v, m !! k = Some v → 0 ≤ halves v ≤ 200.

(** The keys read by [check_ending] and [show_end], in the order read. *)
Definition ending_keys : list string :=
  ["joy"; "sadness"; "anger"; "fear"; "calm"].

(** A stat value at or beyond a boundary. *)
Definition at_boundary (v : num) : bool :=
  num_leb v (Int 0) || num_leb (Int 100) v.


(** ** Reading [decide] *)

(** The effects and flag lists of the branch that [decide] takes. *)
Definition branch (c : CardDef.t) (direction : string)
  : list (string * EffectValue) * list string * list string :=
  if bool_decide (direction = "L")
  then (CardDef.effects_left c, CardDef.set_flags_left c,
        CardDef.clear_flags_left c)
  else (CardDef.effects_right c, CardDef.set_flags_right c,
        CardDef.clear_flags_right c).

(** The card [decide] resolves: the first one carrying the id held by the
    card widget, provided that id is not the empty string. *)
Definition current_card (self : GameRoot.t) : option CardDef.t :=
  match GameRoot.card_id self with
  | None => None
  | Some cid =>
      if bool_decide (cid = "") then None
      else List.find (λ x, bool_decide (CardDef.id x = cid))
             (GameRoot.cards self)
  end.

Definition bump_turn (self : GameRoot.t) : GameRoot.t :=
  GameRoot.set_gs
    (GameState.set_turn (GameState.turn (GameRoot.gs self) + 1)
       (GameRoot.gs self)) self.

(** The game still carries the deck it was built from, every stat value
    and every value shown by a stat row lies in the range, and every
    declared stat has a value and a row. *)
Record wf (tr : Translator.t) (deck : Deck) (g : GameRoot.t) : Prop := {
  wf_tr : GameRoot.tr g = tr;
  wf_stats : GameRoot.stats g = deck_stats deck;
  wf_max_turns : GameRoot.max_turns g = deck_max_turns deck;
  wf_cards : GameRoot.cards g = deck_cards deck;
  wf_range : stats_in_range (GameState.stats (GameRoot.gs g));
  wf_rows_range : stats_in_range (GameRoot.stat_rows g);
  wf_keys : ∀ k, k ∈ GameRoot.stats g →
              is_Some (GameState.stats (GameRoot.gs g) !! k)
              ∧ is_Some (GameRoot.stat_rows g !! k)
}.


(** ** Reading [check_ending] *)

(** The ten boundary tests of [check_ending], as the table they spell out:
    key, ending at or below 0, ending at or above 100. *)
Definition ending_table : list (string * EndingKey * EndingKey) :=
  [("joy", JOY_LOW, JOY_HIGH);
   ("sadness", SADNESS_LOW, SADNESS_HIGH);
   ("anger", ANGER_LOW, ANGER_HIGH);
   ("fear", FEAR_LOW, FEAR_HIGH);
   ("calm", CALM_LOW, CALM_HIGH)].

Inductive scan_result : Type :=
| Missing (k : string)
| Boundary (e : EndingKey)
| Inside.

(** Going through a table of boundary tests in order, stopping at the first
    key that is absent or whose value is at a boundary. *)
Fixpoint scan (tbl : list (string * EndingKey * EndingKey))
    (s : gmap string num) : scan_result :=
  match tbl with
  | [] => Inside
  | (k, low, high) :: tbl' =>
      match s !! k with
      | None => Missing k
      | Some v =>
          if num_leb v (Int 0) then Boundary low
          else if num_leb (Int 100) v then Boundary high
          else scan tbl' s
      end
  end.

(** The outcome of the turn limit: the two wins, or no ending yet. *)
Definition turn_limit_outcome (self : GameRoot.t) : option EndingKey :=
  if GameRoot.max_turns self <=? GameState.turn (GameRoot.gs self) then
    if bool_decide ("resonance_ready" ∈ GameState.flags (GameRoot.gs self))
    then Some RESONANCE
    else Some HARMONY
  else None.

(** A number whose value is a whole number. *)
Definition is_integral (x : num) : bool := Z.even (halves x).

(** ** A small deck to run *)

Definition tr0 : Translator.t := Translator.mk ∅.

(** One card: left costs 40 joy, right sets [resonance_ready]. *)
Definition demo_card : CardDef.t :=
  CardDef.mk "a" 1 [] [] [("joy", EInt (-40))] [] [] ["resonance_ready"] [] [].

Definition demo_deck : Deck := mkDeck ending_keys 3 [demo_card].

(** The game [start_game] builds from [demo_deck]. *)
Definition demo_game : GameRoot.t :=
  GameRoot.mk tr0 ending_keys 3 [demo_card]
    (GameState.mk (GameRoot.fresh_stats ending_keys) ∅ 0 (Some "a"))
    (GameRoot.fresh_stats ending_keys) (Some "a") [CardWidget].

(** [demo_game] after the left decision: joy is 0 and the end screen is up. *)
Definition demo_ended : GameRoot.t :=
  GameRoot.mk tr0 ending_keys 3 [demo_card]
    (GameState.mk (<["joy" := Int 0]> (GameRoot.fresh_stats ending_keys))
       ∅ 1 (Some "a"))
    (<["joy" := Int 0]> (GameRoot.fresh_stats ending_keys)) (Some "a")
    [EndScreen "ending.JOY_LOW.title" "ending.JOY_LOW.body"
       [Int 0; Int 50; Int 50; Int 50; Int 50]].

(** [demo_ended] after one more decision, to the right. *)
Definition demo_ended_again : GameRoot.t :=
  GameRoot.mk tr0 ending_keys 3 [demo_card]
    (GameState.mk (<["joy" := Int 0]> (GameRoot.fresh_stats ending_keys))
       {["resonance_ready"]} 2 (Some "a"))
    (<["joy" := Int 0]> (GameRoot.fresh_stats ending_keys)) (Some "a")
    [EndScreen "ending.JOY_LOW.title" "ending.JOY_LOW.body"
       [Int 0; Int 50; Int 50; Int 50; Int 50]].

(** [demo_game] after one decision to the right. *)
Definition demo_right : GameRoot.t :=
  GameRoot.mk tr0 ending_keys 3 [demo_card]
    (GameState.mk (GameRoot.fresh_stats ending_keys)
       {["resonance_ready"]} 1 (Some "a"))
    (GameRoot.fresh_stats ending_keys) (Some "a") [CardWidget].



(** ** The rounding rule of the specification *)

(** Nearest whole number, halves going away from zero, of a value given in
    halves. *)
Definition round_half_away (h : Z) : Z :=
  if 0 <=? h then (h + 1) / 2 else - ((- h + 1) / 2).

(** A stat update as the specification words it: add 1.5 times the delta,
    round, clamp. *)
Definition spec_apply_delta (cur : num) (delta : Z) : num :=
  clamp (Int (round_half_away (halves cur + 3 * delta))) (Int 0) (Int 100).

(** ** Eligibility as the specification words it *)

(** A card is eligible iff it is not the last card, all its required flags
    are present and none of its forbidden flags is. *)
Definition eligible_spec (gs : GameState.t) (c : CardDef.t) : Prop :=
  Some (CardDef.id c) ≠ GameState.last_card_id gs
  ∧ Forall (λ f, f ∈ GameState.flags gs) (CardDef.require_flags c)
  ∧ Forall (λ f, f ∉ GameState.flags gs) (CardDef.forbid_flags c).

#[global] Instance eligible_spec_dec gs c : Decision (eligible_spec gs c).
Proof. unfold eligible_spec. apply _. Defined.

(** The filtered cards, or the full list when the filter leaves nothing. *)
Definition spec_eligible_cards (gs : GameState.t) (cards : list CardDef.t)
  : list CardDef.t :=
  let out := filter (eligible_spec gs) cards in
  if decide (out = []) then cards else out.

(** ** Deck validation as the specification words it *)




(** The sum of the weights [max(1, weight)] of a list of cards. *)
Definition total_weight (cards : list CardDef.t) : Z :=
  foldr Z.add 0 (map (λ c, Z.max 1 (CardDef.weight c)) cards).

(** A card breaking rules (a) and (b): an effect on an undeclared stat and
    a range with [lo > hi]. *)
Definition bad_card : CardDef.t :=
  CardDef.mk "b" 1 [] [] [("luck", EInt 5)] [("joy", EList [3; 1])]
    [] [] [] [].


(** The game [start_game] builds from [bad_deck]. *)
Definition bad_game : GameRoot.t :=
  GameRoot.mk tr0 ending_keys 0 [bad_card]
    (GameState.mk (GameRoot.fresh_stats ending_keys) ∅ 0 (Some "b"))
    (GameRoot.fresh_stats ending_keys) (Some "b") [CardWidget].

(** ** Scenario 2 *)



(** ** A game whose deck declares joy alone *)

(** The state [decide] checks for an ending after the left decision on the
    demo card, in a deck whose only declared stat is joy. *)
Definition joy_only_game : GameRoot.t :=
  GameRoot.mk tr0 ["joy"] 3 [demo_card]
    (GameState.mk {["joy" := Int 0]} ∅ 1 (Some "a"))
    {["joy" := Int 0]} (Some "a") [CardWidget].

(** The same deck before the decision: joy alone, at 50. *)
Definition joy_only_start : GameRoot.t :=
  GameRoot.mk tr0 ["joy"] 3 [demo_card]
    (GameState.mk {["joy" := Int 50]} ∅ 0 (Some "a"))
    {["joy" := Int 50]} (Some "a") [CardWidget].

(** The demo game with a sixth stat, at a boundary. *)
Definition demo_with_luck : GameRoot.t :=
  GameRoot.set_gs
    (GameState.set_stats
       (<["luck" := Int 0]> (GameState.stats (GameRoot.gs demo_game)))
       (GameRoot.gs demo_game)) demo_game.

(** ** A two-card pool *)

(** Two cards without flag conditions, of weights 1 and 3. *)
Definition card_A : CardDef.t :=
  CardDef.mk "A" 1 [] [] [] [] [] [] [] [].

Definition card_B : CardDef.t :=
  CardDef.mk "B" 3 [] [] [] [] [] [] [] [].

(** A game over these two cards before any card was shown. *)
Definition two_card_game : GameRoot.t :=
  GameRoot.mk tr0 ending_keys 3 [card_A; card_B]
    (GameState.mk (GameRoot.fresh_stats ending_keys) ∅ 0 None)
    (GameRoot.fresh_stats ending_keys) None [CardWidget].

(** ** The invariant of a run *)

(** What holds of every reachable game beyond the ranges: the rows show the
    stats, the stats are the declared ones, the card widget holds the last
    card drawn, which is a card of the deck, the stage holds the card
    widget or one end screen, and while the card widget is on the stage
    after a decision no ending condition holds. *)
Record run_inv (g : GameRoot.t) : Prop := {
  inv_rows : GameRoot.stat_rows g = GameState.stats (GameRoot.gs g);
  inv_keys : ∀ k, is_Some (GameState.stats (GameRoot.gs g) !! k)
                  ↔ k ∈ GameRoot.stats g;
  inv_card : GameRoot.card_id g = GameState.last_card_id (GameRoot.gs g);
  inv_card_in : ∃ c, c ∈ GameRoot.cards g
                     ∧ GameRoot.card_id g = Some (CardDef.id c);
  inv_turn : 0 ≤ GameState.turn (GameRoot.gs g);
  inv_stage : GameRoot.stage g = [CardWidget]
              ∨ ∃ title body final,
                  GameRoot.stage g = [EndScreen title body final];
  inv_playing : GameRoot.stage g = [CardWidget] →
                0 < GameState.turn (GameRoot.gs g) →
                ∀ tape, GameRoot.check_ending_key g tape = Ok (None, tape)
}.

(** An effect value that [roll] and the product with 1.5 accept. *)
Definition rollable (v : EffectValue) : Prop :=
  match v with
  | EInt n => Z.abs n < float_overflow
  | EList [lo; hi] =>
      lo ≤ hi ∧ Z.abs lo < float_overflow ∧ Z.abs hi < float_overflow
  | EList _ => False
  end.


(** ** A deck whose card has an empty id *)

Definition nameless_card : CardDef.t :=
  CardDef.mk "" 1 [] [] [("joy", EInt (-40))] [] [] [] [] [].

Definition nameless_deck : Deck := mkDeck ending_keys 3 [nameless_card].

(** The game [start_game] builds from [nameless_deck]. *)
Definition nameless_game : GameRoot.t :=
  GameRoot.mk tr0 ending_keys 3 [nameless_card]
    (GameState.mk (GameRoot.fresh_stats ending_keys) ∅ 0 (Some ""))
    (GameRoot.fresh_stats ending_keys) (Some "") [CardWidget].

(** The deck of [joy_only_start]: joy is its only declared stat. *)
Definition joy_only_deck : Deck := mkDeck ["joy"] 3 [demo_card].

(** ** The values a stat takes *)

(** A stat value as the engine stores it: the integer 50 it starts with,
    the integers 0 and 100 written by [clamp] at the bounds, or a float
    strictly between the bounds. *)
Definition stored_value (v : num) : Prop :=
  v = Int 0 ∨ v = Int 50 ∨ v = Int 100 ∨ ∃ h, v = Float h ∧ 0 < h < 200.

Definition stored_values (m : gmap string num) : Prop :=
  ∀ k v, m !! k = Some v → stored_value v.

(** ** A deck with a card behind a flag *)

(** A card that requires the flag [key], which no branch sets. *)
Definition gated_card : CardDef.t :=
  CardDef.mk "G" 1 ["key"] [] [] [] [] [] [] [].

Definition gated_deck : Deck := mkDeck ending_keys 3 [card_A; gated_card].

(** The game [start_game] builds from [gated_deck]: [card_A] is shown. *)
Definition gated_game : GameRoot.t :=
  GameRoot.mk tr0 ending_keys 3 [card_A; gated_card]
    (GameState.mk (GameRoot.fresh_stats ending_keys) ∅ 0 (Some "A"))
    (GameRoot.fresh_stats ending_keys) (Some "A") [CardWidget].

(** [gated_game] after a decision to the right: [card_A] is shown again. *)
Definition gated_game_next : GameRoot.t :=
  GameRoot.mk tr0 ending_keys 3 [card_A; gated_card]
    (GameState.mk (GameRoot.fresh_stats ending_keys) ∅ 1 (Some "A"))
    (GameRoot.fresh_stats ending_keys) (Some "A") [CardWidget].
(** * Proofs *)

(** ** The monad *)

Lemma bind_Ok {A B} (m : M A) (f : A → M B) tape r :
  bind m f tape = Ok r →
  ∃ a tape', m tape = Ok (a, tape') ∧ f a tape' = Ok r.
Proof.
  unfold bind. destruct (m tape) as [[a tape']|e]; [eauto | discriminate].
Qed.

Lemma bind_eq_Ok {A B} (m : M A) (f : A → M B) tape a tape' :
  m tape = Ok (a, tape') → bind m f tape = f a tape'.
Proof. unfold bind. by intros ->. Qed.

Lemma bind_eq_Raise {A B} (m : M A) (f : A → M B) tape e :
  m tape = Raise e → bind m f tape = Raise e.
Proof. unfold bind. by intros ->. Qed.

Lemma ret_Ok {A} (a : A) tape r : ret a tape = Ok r → r = (a, tape).
Proof. unfold ret. congruence. Qed.

Lemma getitem_Ok s k tape v tape' :
  getitem s k tape = Ok (v, tape') → s !! k = Some v ∧ tape' = tape.
Proof.
  unfold getitem. destruct (s !! k); [|discriminate].
  intros [= -> ->]%ret_Ok. done.
Qed.

Lemma getitem_Some s k v tape :
  s !! k = Some v → getitem s k tape = Ok (v, tape).
Proof. unfold getitem. by intros ->. Qed.

Lemma getitem_None s k tape :
  s !! k = None → getitem s k tape = Raise (KeyError k).
Proof. unfold getitem. by intros ->. Qed.

(** Splits a successful run of a [let*] chain into its steps. *)
Ltac inv_bind H :=
  let a := fresh "a" in
  let tp := fresh "tape" in
  let H1 := fresh "Hstep" in
  apply bind_Ok in H as (a & tp & H1 & H).

(** ** Clamping *)

Lemma clamp_halves x :
  halves (clamp x (Int 0) (Int 100)) = Z.max 0 (Z.min 200 (halves x)).
Proof.
  unfold clamp, py_max, py_min, num_ltb.
  repeat case_match; simpl in *; lia.
Qed.

Lemma clamp_in_range x : 0 ≤ halves (clamp x (Int 0) (Int 100)) ≤ 200.
Proof. rewrite clamp_halves. lia. Qed.

(** Inside the open range the sum is kept as it is: nothing is rounded. *)
Lemma clamp_inside x :
  0 < halves x < 200 → clamp x (Int 0) (Int 100) = x.
Proof.
  intros Hx. unfold clamp, py_max, py_min, num_ltb.
  repeat case_match; simpl in *; try lia; done.
Qed.

Lemma clamp_low x : halves x ≤ 0 → clamp x (Int 0) (Int 100) = Int 0.
Proof.
  intros Hx. unfold clamp, py_max, py_min, num_ltb.
  repeat case_match; simpl in *; try lia; done.
Qed.

Lemma clamp_high x : 200 ≤ halves x → clamp x (Int 0) (Int 100) = Int 100.
Proof.
  intros Hx. unfold clamp, py_max, py_min, num_ltb.
  repeat case_match; simpl in *; try lia; done.
Qed.


(** ** Fresh statistics *)

Lemma fresh_stats_foldl ks (m : gmap string num) k :
  foldl (λ m k, <[k := Int 50]> m) m ks !! k
  = if bool_decide (k ∈ ks) then Some (Int 50) else m !! k.
Proof.
  revert m. induction ks as [|k' ks IH]; intros m; cbn [foldl].
  - case_bool_decide as Hin; [by apply elem_of_nil in Hin | done].
  - rewrite IH. clear IH. repeat case_bool_decide; try done.
    + set_solver.
    + destruct (decide (k = k')) as [->|Hne]; [|set_solver].
      by rewrite lookup_insert_eq.
    + destruct (decide (k = k')) as [->|Hne]; [set_solver|].
      by rewrite lookup_insert_ne.
Qed.

Lemma fresh_stats_lookup ks k :
  GameRoot.fresh_stats ks !! k
  = if bool_decide (k ∈ ks) then Some (Int 50) else None.
Proof. unfold GameRoot.fresh_stats. by rewrite fresh_stats_foldl, lookup_empty. Qed.

Lemma fresh_stats_in_range ks : stats_in_range (GameRoot.fresh_stats ks).
Proof.
  intros k v. rewrite fresh_stats_lookup. case_bool_decide; [|done].
  intros [= <-]. simpl. lia.
Qed.

(** ** What each method changes *)

Lemma refresh_rows_Ok ks s rows tape rows' tape' :
  GameRoot.refresh_rows ks s rows tape = Ok (rows', tape') →
  tape' = tape
  ∧ (∀ k v, rows' !! k = Some v → rows !! k = Some v ∨ s !! k = Some v)
  ∧ (∀ k, is_Some (rows !! k) → is_Some (rows' !! k)).
Proof.
  revert rows. induction ks as [|k0 ks IH]; intros rows H; simpl in H.
  - apply ret_Ok in H as [= <- <-]. eauto.
  - inv_bind H. apply getitem_Ok in Hstep as [_ ->].
    inv_bind H. apply getitem_Ok in Hstep as [Hs ->].
    apply IH in H as (-> & Hval & Hdom). split; [done|]. split.
    + intros k v Hk. destruct (Hval k v Hk) as [Hr|Hr]; [|by right].
      destruct (decide (k0 = k)) as [<-|Hne].
      * rewrite lookup_insert_eq in Hr. right. congruence.
      * rewrite lookup_insert_ne in Hr by done. by left.
    + intros k Hk. apply Hdom.
      destruct (decide (k0 = k)) as [<-|Hne].
      * rewrite lookup_insert_eq. eauto.
      * by rewrite lookup_insert_ne.
Qed.

Lemma refresh_rows_total ks s rows tape :
  (∀ k, k ∈ ks → is_Some (s !! k) ∧ is_Some (rows !! k)) →
  ∃ rows', GameRoot.refresh_rows ks s rows tape = Ok (rows', tape).
Proof.
  revert rows. induction ks as [|k0 ks IH]; intros rows Hks; simpl.
  - eexists. reflexivity.
  - destruct (Hks k0) as [[v Hv] [r Hr]]; [set_solver|].
    rewrite (bind_eq_Ok _ _ _ _ _ (getitem_Some _ _ _ tape Hr)).
    rewrite (bind_eq_Ok _ _ _ _ _ (getitem_Some _ _ _ tape Hv)).
    apply IH. intros k Hk. destruct (Hks k) as [Hs Hrow]; [set_solver|].
    split; [done|].
    destruct (decide (k0 = k)) as [<-|Hne].
    + rewrite lookup_insert_eq. eauto.
    + by rewrite lookup_insert_ne.
Qed.

Lemma refresh_stats_Ok self tape self' tape' :
  GameRoot.refresh_stats self tape = Ok (self', tape') →
  tape' = tape
  ∧ ∃ rows', self' = GameRoot.set_stat_rows rows' self
    ∧ (∀ k v, rows' !! k = Some v →
         GameRoot.stat_rows self !! k = Some v
         ∨ GameState.stats (GameRoot.gs self) !! k = Some v)
    ∧ (∀ k, is_Some (GameRoot.stat_rows self !! k) → is_Some (rows' !! k)).
Proof.
  unfold GameRoot.refresh_stats. intros H. inv_bind H.
  apply refresh_rows_Ok in Hstep as (-> & Hval & Hdom).
  apply ret_Ok in H as [= -> ->]. eauto.
Qed.

Lemma apply_effects_Ok self effects tape self' tape' :
  GameRoot.apply_effects self effects tape = Ok (self', tape') →
  ∃ m', self' = GameRoot.set_gs
                  (GameState.set_stats m' (GameRoot.gs self)) self
    ∧ (stats_in_range (GameState.stats (GameRoot.gs self)) →
       stats_in_range m')
    ∧ (∀ k, is_Some (GameState.stats (GameRoot.gs self) !! k) →
            is_Some (m' !! k)).
Proof.
  revert self tape.
  induction effects as [|[k v] effects IH]; intros self tape H; simpl in H.
  - apply ret_Ok in H as [= -> ->].
    exists (GameState.stats (GameRoot.gs self)).
    by destruct self as [? ? ? ? [] ? ? ?].
  - destruct (GameState.stats (GameRoot.gs self) !! k) as [cur|] eqn:Hk.
    + inv_bind H. inv_bind H.
      apply IH in H as (m' & -> & Hrange & Hdom).
      exists m'. split; [by destruct self as [? ? ? ? [] ? ? ?]|].
      simpl in *. split.
      * intros Hin. apply Hrange. intros k' v'.
        destruct (decide (k = k')) as [<-|Hne].
        -- rewrite lookup_insert_eq. intros [= <-]. apply clamp_in_range.
        -- rewrite lookup_insert_ne by done. apply Hin.
      * intros k' Hk'. apply Hdom.
        destruct (decide (k = k')) as [<-|Hne].
        -- rewrite lookup_insert_eq. eauto.
        -- by rewrite lookup_insert_ne.
    + by apply IH in H.
Qed.

Lemma bisect_in rest first ws x :
  GameRoot.bisect first rest ws x ∈ first :: rest.
Proof.
  revert first ws x. induction rest as [|c rest IH]; intros first ws x.
  - simpl. set_solver.
  - destruct ws as [|w ws]; simpl; [set_solver|].
    case_match; [set_solver|]. specialize (IH c ws (x - w)). set_solver.
Qed.

Lemma pick_card_Ok self tape c tape' :
  GameRoot.pick_card self tape = Ok (c, tape') →
  c ∈ GameRoot.eligible_cards self.
Proof.
  unfold GameRoot.pick_card, GameRoot.choices.
  destruct (GameRoot.eligible_cards self) as [|c0 rest]; [discriminate|].
  destruct (float_overflow <=? _); [discriminate|]. intros H. inv_bind H.
  apply ret_Ok in H as [= -> ->]. apply bisect_in.
Qed.

Lemma next_card_Ok self tape self' tape' :
  GameRoot.next_card self tape = Ok (self', tape') →
  ∃ c, c ∈ GameRoot.eligible_cards self
    ∧ self' = GameRoot.set_card_id (Some (CardDef.id c))
                (GameRoot.set_gs
                   (GameState.set_last_card_id (Some (CardDef.id c))
                      (GameRoot.gs self)) self).
Proof.
  unfold GameRoot.next_card. intros H. inv_bind H.
  apply ret_Ok in H as [= -> ->]. apply pick_card_Ok in Hstep. eauto.
Qed.

Lemma show_end_Ok self title body tape self' tape' :
  GameRoot.show_end self title body tape = Ok (self', tape') →
  tape' = tape
  ∧ ∃ final, self' = GameRoot.set_stage [EndScreen title body final] self.
Proof.
  unfold GameRoot.show_end. intros H.
  do 5 (inv_bind H; apply getitem_Ok in Hstep as [_ ->]).
  apply ret_Ok in H as [= -> ->]. split; [done|].
  eexists. by destruct self.
Qed.

Lemma check_ending_Ok self tape r tape' :
  GameRoot.check_ending self tape = Ok (r, tape') →
  ∃ e, GameRoot.check_ending_key self tape = Ok (e, tape')
       ∧ r = ending_text (GameRoot.tr self) <$> e.
Proof.
  unfold GameRoot.check_ending. intros H. inv_bind H.
  apply ret_Ok in H as [= -> ->]. eauto.
Qed.

Lemma check_ending_key_tape self tape e tape' :
  GameRoot.check_ending_key self tape = Ok (e, tape') → tape' = tape.
Proof.
  unfold GameRoot.check_ending_key. intros H.
  repeat first
    [ apply ret_Ok in H as [= _ ->]; done
    | inv_bind H; apply getitem_Ok in Hstep as [_ ->]
    | match type of H with
      | (if ?b then _ else _) _ = _ => destruct b
      end ].
Qed.

Lemma decide_no_card self direction tape :
  current_card self = None →
  GameRoot.decide self direction tape = Ok (self, tape).
Proof.
  unfold current_card, GameRoot.decide.
  destruct (GameRoot.card_id self) as [cid|]; [|done].
  case_bool_decide; [done|]. by intros ->.
Qed.

Lemma decide_unfold self direction c tape :
  current_card self = Some c →
  GameRoot.decide self direction tape =
  (let* self1 := GameRoot.apply_effects self (branch c direction).1.1 in
   let self2 := bump_turn (GameRoot.apply_flags self1
                             (branch c direction).1.2
                             (branch c direction).2) in
   let* self3 := GameRoot.refresh_stats self2 in
   let* ending := GameRoot.check_ending self3 in
   match ending with
   | Some (title, body) => GameRoot.show_end self3 title body
   | None => GameRoot.next_card self3
   end) tape.
Proof.
  unfold current_card, GameRoot.decide, branch, bump_turn.
  destruct (GameRoot.card_id self) as [cid|]; [|done].
  case_bool_decide; [done|]. intros ->.
  case_bool_decide; simpl; unfold bind;
    by destruct (GameRoot.apply_effects _ _ _) as [[? ?]|].
Qed.

(** The steps of a decision that returns. *)
Lemma decide_Ok self direction c tape self' tape' :
  current_card self = Some c →
  GameRoot.decide self direction tape = Ok (self', tape') →
  ∃ self1 tape1 self3,
    GameRoot.apply_effects self (branch c direction).1.1 tape
    = Ok (self1, tape1)
    ∧ GameRoot.refresh_stats
        (bump_turn (GameRoot.apply_flags self1 (branch c direction).1.2
                      (branch c direction).2)) tape1
      = Ok (self3, tape1)
    ∧ ((∃ e, GameRoot.check_ending_key self3 tape1 = Ok (Some e, tape1)
             ∧ GameRoot.show_end self3
                 (ending_text (GameRoot.tr self3) e).1
                 (ending_text (GameRoot.tr self3) e).2 tape1
               = Ok (self', tape'))
       ∨ (GameRoot.check_ending_key self3 tape1 = Ok (None, tape1)
          ∧ GameRoot.next_card self3 tape1 = Ok (self', tape'))).
Proof.
  intros Hc H. rewrite (decide_unfold _ _ _ _ Hc) in H.
  inv_bind H. inv_bind H. inv_bind H.
  pose proof (refresh_stats_Ok _ _ _ _ Hstep0) as [-> _].
  apply check_ending_Ok in Hstep1 as (e & He & ->).
  pose proof (check_ending_key_tape _ _ _ _ He) as ->.
  exists a, tape0, a0. split; [done|]. split; [done|].
  destruct e as [e|]; simpl in H.
  - left. exists e. split; [done|]. exact H.
  - by right.
Qed.

(** ** The invariant of reachable games *)

Lemma rows_in_range (s rows rows' : gmap string num) :
  stats_in_range s → stats_in_range rows →
  (∀ k v, rows' !! k = Some v → rows !! k = Some v ∨ s !! k = Some v) →
  stats_in_range rows'.
Proof.
  intros Hs Hrows Hval k v Hk. destruct (Hval k v Hk); [by eapply Hrows|by eapply Hs].
Qed.

Lemma start_game_wf tr deck tape g tape' :
  FeelingsApp.start_game tr deck tape = Ok (g, tape') → wf tr deck g.
Proof.
  unfold FeelingsApp.start_game, GameRoot.init. intros H. inv_bind H.
  apply refresh_stats_Ok in Hstep as (-> & rows' & -> & Hval & Hdom).
  apply next_card_Ok in H as (c & _ & ->). simpl in *.
  split; simpl; try done.
  - apply fresh_stats_in_range.
  - eapply rows_in_range; [| |exact Hval]; apply fresh_stats_in_range.
  - intros k Hk.
    assert (is_Some (GameRoot.fresh_stats (deck_stats deck) !! k)) as Hfresh.
    { rewrite fresh_stats_lookup, bool_decide_eq_true_2; eauto. }
    split; [done|]. by apply Hdom.
Qed.

Lemma restart_wf tr deck g tape g' tape' :
  wf tr deck g →
  GameRoot.restart g tape = Ok (g', tape') → wf tr deck g'.
Proof.
  intros [Htr Hst Hmax Hcards Hr Hrows Hkeys].
  unfold GameRoot.restart. intros H. inv_bind H.
  apply refresh_stats_Ok in Hstep as (-> & rows' & -> & Hval & Hdom).
  apply next_card_Ok in H as (c & _ & ->). simpl in *.
  split; simpl; try done.
  - apply fresh_stats_in_range.
  - eapply rows_in_range; [| |exact Hval]; [apply fresh_stats_in_range|done].
  - intros k Hk. split.
    + rewrite fresh_stats_lookup, bool_decide_eq_true_2; eauto.
    + apply Hdom. by apply Hkeys.
Qed.

Lemma decide_wf tr deck g direction tape g' tape' :
  wf tr deck g →
  GameRoot.decide g direction tape = Ok (g', tape') → wf tr deck g'.
Proof.
  intros Hwf H. destruct (current_card g) as [c|] eqn:Hc.
  2:{ rewrite decide_no_card in H by done. by injection H as <- <-. }
  destruct Hwf as [Htr Hst Hmax Hcards Hr Hrows Hkeys].
  destruct (decide_Ok _ _ _ _ _ _ Hc H)
    as (self1 & tape1 & self3 & Heff & Href & Hend). clear H.
  apply apply_effects_Ok in Heff as (m' & -> & Hrange & Hdom).
  apply refresh_stats_Ok in Href as (_ & rows' & -> & Hval & Hrdom).
  simpl in *.
  assert (stats_in_range rows') as Hrows'.
  { eapply rows_in_range; [| |exact Hval]; auto. }
  destruct Hend as [(e & _ & H)|[_ H]].
  - apply show_end_Ok in H as (_ & final & ->).
    split; simpl; try done; auto.
    intros k Hk. destruct (Hkeys k Hk). split; auto.
  - apply next_card_Ok in H as (c' & _ & ->).
    split; simpl; try done; auto.
    intros k Hk. destruct (Hkeys k Hk). split; auto.
Qed.

Lemma reachable_wf tr deck g : reachable tr deck g → wf tr deck g.
Proof.
  induction 1 as [tape g tape' H|g d tape g' tape' _ IH H
                 |g ti bo fi tape g' tape' _ IH _ H].
  - by eapply start_game_wf.
  - by eapply decide_wf.
  - by eapply restart_wf.
Qed.

(** C1. In every reachable game every stat value, and every value shown
    by a stat row, lies in [0,100]; and [apply_effects] on its own keeps
    all stat values in that range whenever it returns. *)
Theorem C1_stats_stay_in_range :
  (∀ tr deck g, reachable tr deck g →
     stats_in_range (GameState.stats (GameRoot.gs g))
     ∧ stats_in_range (GameRoot.stat_rows g))
  ∧ (∀ self effects tape self' tape',
       stats_in_range (GameState.stats (GameRoot.gs self)) →
       GameRoot.apply_effects self effects tape = Ok (self', tape') →
       stats_in_range (GameState.stats (GameRoot.gs self'))).
Proof.
  split.
  - intros tr deck g Hg. apply reachable_wf in Hg. split; apply Hg.
  - intros self effects tape self' tape' Hin H.
    apply apply_effects_Ok in H as (m' & -> & Hrange & _). simpl. auto.
Qed.

(** ** [check_ending] as a scan of its table *)

Lemma check_ending_key_scan self tape :
  GameRoot.check_ending_key self tape =
  match scan ending_table (GameState.stats (GameRoot.gs self)) with
  | Missing k => Raise (KeyError k)
  | Boundary e => Ok (Some e, tape)
  | Inside => Ok (turn_limit_outcome self, tape)
  end.
Proof.
  unfold GameRoot.check_ending_key, turn_limit_outcome, ending_table, scan,
    bind, getitem.
  generalize (GameState.stats (GameRoot.gs self)). intros s.
  repeat (lazymatch goal with
          | |- context [s !! ?k] => destruct (s !! k); simpl; [|reflexivity]
          end;
          lazymatch goal with
          | |- context [num_leb ?a ?b] =>
              destruct (num_leb a b); simpl; [reflexivity|]
          end;
          lazymatch goal with
          | |- context [num_leb ?a ?b] =>
              destruct (num_leb a b); simpl; [reflexivity|]
          end).
  unfold ret. repeat case_match; reflexivity.
Qed.

Lemma demo_game_started :
  FeelingsApp.start_game tr0 demo_deck [] = Ok (demo_game, []).
Proof. vm_compute. reflexivity. Qed.

Lemma demo_game_left :
  GameRoot.decide demo_game "L" [] = Ok (demo_ended, []).
Proof. vm_compute. reflexivity. Qed.

Lemma ending_keys_table : ending_keys = ending_table.*1.*1.
Proof. reflexivity. Qed.

Lemma elem_of_ending_keys k :
  k ∈ ending_keys ↔ ∃ low high, (k, low, high) ∈ ending_table.
Proof.
  rewrite ending_keys_table. split.
  - intros ([k' low] & -> & ([[k'' low'] high] & [= -> ->] & Hin)
                              %list_elem_of_fmap)%list_elem_of_fmap.
    simpl. eauto.
  - intros (low & high & Hin).
    apply list_elem_of_fmap. exists (k, low). split; [done|].
    apply list_elem_of_fmap. by exists (k, low, high).
Qed.



Lemma scan_Inside tbl s :
  scan tbl s = Inside ↔
  ∀ k low high, (k, low, high) ∈ tbl →
    ∃ v, s !! k = Some v ∧ at_boundary v = false.
Proof.
  induction tbl as [|[[k0 l0] h0] tbl IH]; simpl.
  - split; [|done]. intros _ k low high Hin. by apply elem_of_nil in Hin.
  - split.
    + destruct (s !! k0) as [v0|] eqn:Hk0; [|discriminate].
      destruct (num_leb v0 (Int 0)) eqn:Hlo; [discriminate|].
      destruct (num_leb (Int 100) v0) eqn:Hhi; [discriminate|].
      intros Hrest k low high [[= -> -> ->]|Hin]%elem_of_cons.
      * exists v0. unfold at_boundary. by rewrite Hlo, Hhi.
      * by eapply IH.
    + intros Hall. destruct (Hall k0 l0 h0) as (v0 & -> & Hb); [set_solver|].
      unfold at_boundary in Hb. apply orb_false_iff in Hb as [-> ->].
      apply IH. intros k low high Hin. apply (Hall k low high). set_solver.
Qed.



(** The witness of C1: the demo game after its left decision, and the left
    effect of the demo card applied to the demo game. *)
Lemma C1_witness :
  (stats_in_range (GameState.stats (GameRoot.gs demo_ended))
   ∧ stats_in_range (GameRoot.stat_rows demo_ended))
  ∧ stats_in_range (<["joy" := Int 0]> (GameRoot.fresh_stats ending_keys)).
Proof.
  pose proof C1_stats_stay_in_range as [Hreach Heff]. split.
  - apply (Hreach tr0 demo_deck).
    apply (reach_decide tr0 demo_deck demo_game "L" [] demo_ended []).
    + apply (reach_start tr0 demo_deck [] demo_game []).
      vm_compute. reflexivity.
    + vm_compute. reflexivity.
  - exact (Heff demo_game [("joy", EInt (-40))] []
             (GameRoot.set_gs
                (GameState.set_stats
                   (<["joy" := Int 0]> (GameRoot.fresh_stats ending_keys))
                   (GameRoot.gs demo_game)) demo_game) []
             (proj1 (Hreach tr0 demo_deck demo_game
                       (reach_start tr0 demo_deck [] demo_game [] eq_refl)))
             eq_refl).
Defined.

(** ** C2: the sum is stored unrounded *)

Lemma float_overflow_large : 200 < float_overflow.
Proof. reflexivity. Qed.

Lemma apply_effects_one self k n cur tape :
  GameState.stats (GameRoot.gs self) !! k = Some cur →
  Z.abs n < float_overflow →
  GameRoot.apply_effects self [(k, EInt n)] tape
  = Ok (GameRoot.set_gs
          (GameState.set_stats
             (<[k := clamp (num_add cur (Float (3 * n))) (Int 0) (Int 100)]>
                (GameState.stats (GameRoot.gs self)))
             (GameRoot.gs self)) self, tape).
Proof.
  intros Hk Hn. simpl. rewrite Hk. unfold bind, roll, ret, mul_1_5.
  destruct (float_overflow <=? Z.abs n) eqn:Hov; [lia|]. reflexivity.
Qed.

(** An odd delta that keeps an integer stat inside the open range leaves it
    at a half: the stored value is the float sum itself. *)
Lemma apply_effects_unrounded self k z n tape :
  GameState.stats (GameRoot.gs self) !! k = Some (Int z) →
  0 ≤ z ≤ 100 → Z.odd n = true → 0 < 2 * z + 3 * n < 200 →
  ∃ self',
    GameRoot.apply_effects self [(k, EInt n)] tape = Ok (self', tape)
    ∧ GameState.stats (GameRoot.gs self') !! k
      = Some (Float (2 * z + 3 * n))
    ∧ is_integral (Float (2 * z + 3 * n)) = false.
Proof.
  intros Hk Hz Hodd Hin. eexists. split; [|split].
  - apply apply_effects_one; [exact Hk|].
    pose proof float_overflow_large. lia.
  - simpl. rewrite lookup_insert_eq. f_equal. by apply clamp_inside.
  - unfold is_integral. cbn [halves].
    rewrite Z.even_add, !Z.even_mul, <-(Z.negb_odd n), Hodd. reflexivity.
Qed.

(** C2. On the demo game (joy 50) the effect joy: +1 stores 51.5 (103
    halves): the sum [50 + 1.5 * 1] is kept as the float it is, where the
    rounding rule of the specification gives the integer 52. *)
Theorem C2_sum_is_not_rounded :
  ∃ self',
    GameRoot.apply_effects demo_game [("joy", EInt 1)] [] = Ok (self', [])
    ∧ GameState.stats (GameRoot.gs demo_game) !! "joy" = Some (Int 50)
    ∧ GameState.stats (GameRoot.gs self') !! "joy" = Some (Float 103)
    ∧ is_integral (Float 103) = false
    ∧ spec_apply_delta (Int 50) 1 = Int 52.
Proof. eexists. repeat split; vm_compute; reflexivity. Qed.


(** ** C4: eligible cards *)

Lemma eligible_iff self c :
  GameRoot.eligible self c = true ↔ eligible_spec (GameRoot.gs self) c.
Proof.
  unfold GameRoot.eligible, eligible_spec.
  case_bool_decide as Hlast.
  { split; [done|]. by intros [? _]. }
  destruct (existsb _ (CardDef.require_flags c)) eqn:Hreq.
  { split; [done|]. intros (_ & Hall & _).
    apply existsb_exists in Hreq as (f & Hf & Hneg).
    apply negb_true_iff, bool_decide_eq_false in Hneg.
    rewrite Forall_forall in Hall. destruct Hneg.
    by apply Hall, list_elem_of_In. }
  destruct (existsb _ (CardDef.forbid_flags c)) eqn:Hforb.
  { split; [done|]. intros (_ & _ & Hall).
    apply existsb_exists in Hforb as (f & Hf & Hin).
    apply bool_decide_eq_true in Hin.
    rewrite Forall_forall in Hall. destruct (Hall f); [|done].
    by apply list_elem_of_In. }
  split; [|done]. intros _. split; [done|]. split.
  - apply Forall_forall. intros f Hf.
    destruct (decide (f ∈ GameState.flags (GameRoot.gs self))) as [|Hn];
      [done|].
    assert (existsb (λ f, negb (bool_decide
              (f ∈ GameState.flags (GameRoot.gs self))))
              (CardDef.require_flags c) = true) as Hex; [|congruence].
    apply existsb_exists. exists f. split; [by apply list_elem_of_In|].
    by apply negb_true_iff, bool_decide_eq_false.
  - apply Forall_forall. intros f Hf Hin.
    assert (existsb (λ f, bool_decide
              (f ∈ GameState.flags (GameRoot.gs self)))
              (CardDef.forbid_flags c) = true) as Hex; [|congruence].
    apply existsb_exists. exists f. split; [by apply list_elem_of_In|].
    by apply bool_decide_eq_true.
Qed.

Lemma filter_eligible self cards :
  List.filter (GameRoot.eligible self) cards
  = filter (eligible_spec (GameRoot.gs self)) cards.
Proof.
  induction cards as [|c cards IH]; [done|].
  simpl. rewrite filter_cons, IH.
  destruct (GameRoot.eligible self c) eqn:He.
  - apply eligible_iff in He. by rewrite decide_True.
  - rewrite decide_False; [done|]. rewrite <-eligible_iff. congruence.
Qed.

Lemma eligible_cards_spec self :
  GameRoot.eligible_cards self
  = spec_eligible_cards (GameRoot.gs self) (GameRoot.cards self).
Proof.
  unfold GameRoot.eligible_cards, spec_eligible_cards.
  rewrite filter_eligible.
  destruct (filter _ (GameRoot.cards self)) eqn:Hf;
    [by rewrite decide_True | by rewrite decide_False].
Qed.


Lemma eligible_cards_subseteq self c :
  c ∈ GameRoot.eligible_cards self → c ∈ GameRoot.cards self.
Proof.
  rewrite eligible_cards_spec. unfold spec_eligible_cards.
  case_decide; [done|]. by intros [_ ?]%list_elem_of_filter.
Qed.

(** ** Drawing a card always works on a non-empty deck *)

Lemma total_weight_nonneg cards : 0 ≤ total_weight cards.
Proof.
  unfold total_weight. induction cards as [|c cards IH]; simpl; lia.
Qed.










(** ** C5 and C6: what [decide] does not check *)

Lemma check_ending_key_ext self self' tape :
  GameState.stats (GameRoot.gs self) = GameState.stats (GameRoot.gs self') →
  GameState.flags (GameRoot.gs self) = GameState.flags (GameRoot.gs self') →
  GameState.turn (GameRoot.gs self) = GameState.turn (GameRoot.gs self') →
  GameRoot.max_turns self = GameRoot.max_turns self' →
  GameRoot.check_ending_key self tape = GameRoot.check_ending_key self' tape.
Proof.
  intros Hs Hf Ht Hm. rewrite !check_ending_key_scan.
  unfold turn_limit_outcome. by rewrite Hs, Hf, Ht, Hm.
Qed.

Lemma check_ending_key_any_tape self tape tape2 e :
  GameRoot.check_ending_key self tape = Ok (e, tape) →
  GameRoot.check_ending_key self tape2 = Ok (e, tape2).
Proof.
  rewrite !check_ending_key_scan. destruct (scan _ _); [done| |];
    by intros [= ->].
Qed.

(** The claim of C5 fails on the demo game: after its left decision the joy
    ending is reached and the end screen is up, yet a further right
    decision returns normally with the turn counter moved from 1 to 2 and
    the flag [resonance_ready] added. *)
Lemma C5_counterexample :
  GameRoot.decide demo_game "L" [] = Ok (demo_ended, [])
  ∧ GameRoot.check_ending_key demo_ended [] = Ok (Some JOY_LOW, [])
  ∧ (∃ final, GameRoot.stage demo_ended
              = [EndScreen (ending_text tr0 JOY_LOW).1
                   (ending_text tr0 JOY_LOW).2 final])
  ∧ ∃ g', GameRoot.decide demo_ended "R" [] = Ok (g', [])
          ∧ GameState.turn (GameRoot.gs demo_ended) = 1
          ∧ GameState.turn (GameRoot.gs g') = 2
          ∧ GameState.flags (GameRoot.gs demo_ended) = ∅
          ∧ GameState.flags (GameRoot.gs g') = {["resonance_ready"]}.
Proof.
  split; [vm_compute; reflexivity|].
  split; [vm_compute; reflexivity|].
  split; [eexists; vm_compute; reflexivity|].
  eexists. repeat split; vm_compute; reflexivity.
Qed.

(** C5, amended. [decide] does not test whether the run has ended: every
    call that finds the card held by the card widget and returns has
    increased the turn counter by one, also on a game that has ended.  What
    an ending does is replace the card widget on the stage by the end
    screen: when the returned game has an ending, its stage holds the end
    screen alone, and otherwise the stage is as it was. *)
Theorem C5_decide_has_no_end_guard self direction c tape self' tape' :
  current_card self = Some c →
  GameRoot.decide self direction tape = Ok (self', tape') →
  GameState.turn (GameRoot.gs self')
  = GameState.turn (GameRoot.gs self) + 1
  ∧ (∀ e, GameRoot.check_ending_key self' tape' = Ok (Some e, tape') →
       ∃ final, GameRoot.stage self'
                = [EndScreen (ending_text (GameRoot.tr self') e).1
                     (ending_text (GameRoot.tr self') e).2 final])
  ∧ (GameRoot.check_ending_key self' tape' = Ok (None, tape') →
     GameRoot.stage self' = GameRoot.stage self).
Proof.
  intros Hc H.
  destruct (decide_Ok _ _ _ _ _ _ Hc H)
    as (self1 & tape1 & self3 & Heff & Href & Hend). clear H.
  apply apply_effects_Ok in Heff as (m' & Hself1 & _ & _).
  apply refresh_stats_Ok in Href as (_ & rows' & Hself3 & _ & _).
  assert (GameState.turn (GameRoot.gs self3)
          = GameState.turn (GameRoot.gs self) + 1) as Hturn.
  { by subst self3 self1. }
  destruct Hend as [(e & He & H)|[He H]].
  - apply show_end_Ok in H as (-> & final & Hself').
    assert (∀ t, GameRoot.check_ending_key self' t
                 = GameRoot.check_ending_key self3 t) as Hext.
    { intros t. subst self'. by apply check_ending_key_ext. }
    split; [by subst self'|]. rewrite Hext, He. split.
    + intros e' [= <-]. exists final. by subst self'.
    + discriminate.
  - apply next_card_Ok in H as (c' & _ & Hself').
    assert (∀ t, GameRoot.check_ending_key self' t
                 = GameRoot.check_ending_key self3 t) as Hext.
    { intros t. subst self'. by apply check_ending_key_ext. }
    split; [by subst self'|].
    rewrite Hext, (check_ending_key_any_tape _ _ tape' _ He).
    split; [discriminate|]. intros _. by subst self' self3 self1.
Qed.

(** The witness of C5: the further right decision on the ended demo game. *)
Lemma C5_witness :
  GameState.turn (GameRoot.gs demo_ended_again)
  = GameState.turn (GameRoot.gs demo_ended) + 1
  ∧ (∀ e, GameRoot.check_ending_key demo_ended_again [] = Ok (Some e, []) →
       ∃ final, GameRoot.stage demo_ended_again
                = [EndScreen (ending_text (GameRoot.tr demo_ended_again) e).1
                     (ending_text (GameRoot.tr demo_ended_again) e).2 final])
  ∧ (GameRoot.check_ending_key demo_ended_again [] = Ok (None, []) →
     GameRoot.stage demo_ended_again = GameRoot.stage demo_ended).
Proof.
  apply (C5_decide_has_no_end_guard demo_ended "R" demo_card []
           demo_ended_again []).
  - vm_compute. reflexivity.
  - vm_compute. reflexivity.
Defined.

(** The claim of C6 fails on the demo game: the direction ["X"] is neither
    ["L"] nor ["R"], yet the decision returns normally, the turn counter
    moves from 0 to 1 and the right branch sets [resonance_ready]. *)
Lemma C6_counterexample :
  "X" ≠ "L" ∧ "X" ≠ "R"
  ∧ GameRoot.decide demo_game "X" [] = Ok (demo_right, [])
  ∧ GameState.turn (GameRoot.gs demo_game) = 0
  ∧ GameState.turn (GameRoot.gs demo_right) = 1
  ∧ GameState.flags (GameRoot.gs demo_game) = ∅
  ∧ GameState.flags (GameRoot.gs demo_right) = {["resonance_ready"]}.
Proof. repeat split; try discriminate; vm_compute; reflexivity. Qed.

(** C6, amended. [decide] compares the direction with ["L"] only: every
    other direction is resolved exactly like ["R"], applying the right
    branch and counting a turn; nothing is rejected or signalled. *)
Theorem C6_other_direction_is_right self direction tape :
  direction ≠ "L" →
  GameRoot.decide self direction tape = GameRoot.decide self "R" tape.
Proof.
  intros Hd. unfold GameRoot.decide.
  destruct (GameRoot.card_id self) as [cid|]; [|done].
  case_bool_decide; [done|].
  destruct (List.find _ _) as [c|]; [|done].
  rewrite (bool_decide_eq_false_2 (direction = "L")) by done.
  rewrite (bool_decide_eq_false_2 ("R" = "L")) by done.
  reflexivity.
Qed.

(** The witness of C6: the direction ["X"] on the demo game. *)
Lemma C6_witness :
  GameRoot.decide demo_game "X" [] = GameRoot.decide demo_game "R" [].
Proof. apply (C6_other_direction_is_right demo_game "X" []). discriminate. Defined.

(** ** C7: nothing validates the deck *)




(** ** Decisions that go through *)

Lemma refresh_stats_total self tape :
  (∀ k, k ∈ GameRoot.stats self →
     is_Some (GameState.stats (GameRoot.gs self) !! k)
     ∧ is_Some (GameRoot.stat_rows self !! k)) →
  ∃ rows, GameRoot.refresh_stats self tape
          = Ok (GameRoot.set_stat_rows rows self, tape).
Proof.
  intros Hkeys. unfold GameRoot.refresh_stats.
  destruct (refresh_rows_total _ _ _ tape Hkeys) as [rows Hrows].
  exists rows. by rewrite (bind_eq_Ok _ _ _ _ _ Hrows).
Qed.




Lemma apply_flags_flags self set_flags clear_flags :
  GameState.flags (GameRoot.gs (GameRoot.apply_flags self set_flags
                                  clear_flags))
  = (list_to_set set_flags ∪ GameState.flags (GameRoot.gs self))
    ∖ list_to_set clear_flags.
Proof.
  unfold GameRoot.apply_flags. simpl.
  generalize (GameState.flags (GameRoot.gs self)). intros fl.
  assert (∀ l (s : gset string),
            foldl (λ s f, {[f]} ∪ s) s l = list_to_set l ∪ s) as Hset.
  { induction l as [|f l IH]; intros s; simpl; [set_solver|].
    rewrite IH. set_solver. }
  assert (∀ l (s : gset string),
            foldl (λ s f, s ∖ {[f]}) s l = s ∖ list_to_set l) as Hclear.
  { induction l as [|f l IH]; intros s; simpl; [set_solver|].
    rewrite IH. set_solver. }
  by rewrite Hset, Hclear.
Qed.

(** ** C8: scenario 1 *)





(** ** C9: the turn limit and scenario 2 *)









(** ** C10: the five keys of [check_ending] *)

Lemma scan_ext tbl (s s' : gmap string num) :
  (∀ k low high, (k, low, high) ∈ tbl → s !! k = s' !! k) →
  scan tbl s = scan tbl s'.
Proof.
  induction tbl as [|[[k0 l0] h0] tbl IH]; intros Heq; [done|].
  simpl. rewrite <-(Heq k0 l0 h0) by set_solver.
  rewrite IH; [done|]. intros k low high Hin. apply (Heq k low high).
  set_solver.
Qed.

Lemma scan_Missing tbl s k :
  scan tbl s = Missing k → ∃ low high, (k, low, high) ∈ tbl ∧ s !! k = None.
Proof.
  induction tbl as [|[[k0 l0] h0] tbl IH]; simpl; [discriminate|].
  destruct (s !! k0) as [v0|] eqn:Hk0.
  - destruct (num_leb v0 (Int 0)); [discriminate|].
    destruct (num_leb (Int 100) v0); [discriminate|].
    intros (low & high & Hin & Hk)%IH. exists low, high. set_solver.
  - intros [= <-]. exists l0, h0. set_solver.
Qed.

Lemma scan_missing_key tbl s k low high :
  (k, low, high) ∈ tbl → s !! k = None →
  (∀ k' low' high' v, (k', low', high') ∈ tbl → s !! k' = Some v →
     at_boundary v = false) →
  ∃ k', scan tbl s = Missing k'.
Proof.
  intros Hin Hk Hno.
  induction tbl as [|[[k0 l0] h0] tbl IH]; [by apply elem_of_nil in Hin|].
  simpl. destruct (s !! k0) as [v0|] eqn:Hk0; [|eauto].
  pose proof (Hno k0 l0 h0 v0 ltac:(set_solver) Hk0) as Hb.
  unfold at_boundary in Hb. apply orb_false_iff in Hb as [-> ->].
  apply IH.
  - apply elem_of_cons in Hin as [[= -> -> ->]|Hin]; [congruence|done].
  - intros k' low' high' v Hin'. apply (Hno k' low' high' v). set_solver.
Qed.

(** The claim of C10 fails on [joy_only_game]: four of the five keys are
    absent from its stats, yet [check_ending] raises no [KeyError] and
    returns the JOY_LOW ending, because joy is read first and is at a
    boundary. *)
Lemma C10_counterexample :
  GameState.stats (GameRoot.gs joy_only_game) !! "sadness" = None
  ∧ GameState.stats (GameRoot.gs joy_only_game) !! "anger" = None
  ∧ GameState.stats (GameRoot.gs joy_only_game) !! "fear" = None
  ∧ GameState.stats (GameRoot.gs joy_only_game) !! "calm" = None
  ∧ GameRoot.check_ending_key joy_only_game [] = Ok (Some JOY_LOW, [])
  ∧ GameRoot.check_ending joy_only_game []
    = Ok (Some (ending_text tr0 JOY_LOW), []).
Proof. repeat split; vm_compute; reflexivity. Qed.

(** C10, amended. [check_ending] goes through the five keys joy, sadness,
    anger, fear, calm in that order, whatever the deck declares, and stops
    at the first one that is absent (a [KeyError] for that key) or at a
    boundary (the ending of that key).  So with the five keys present it
    raises nothing; a [KeyError] names one of the five keys, absent from the
    stats; with one of the five absent and no present one at a boundary it
    raises; and two games that agree on these five keys, the flags, the turn
    and the turn limit get the same answer. *)
Theorem C10_check_ending_reads_five_keys self tape :
  GameRoot.check_ending_key self tape
  = match scan ending_table (GameState.stats (GameRoot.gs self)) with
    | Missing k => Raise (KeyError k)
    | Boundary e => Ok (Some e, tape)
    | Inside => Ok (turn_limit_outcome self, tape)
    end
  ∧ ((∀ k, k ∈ ending_keys →
        is_Some (GameState.stats (GameRoot.gs self) !! k)) →
     ∃ r, GameRoot.check_ending_key self tape = Ok (r, tape))
  ∧ (∀ x, GameRoot.check_ending_key self tape = Raise x →
       ∃ k, x = KeyError k ∧ k ∈ ending_keys
            ∧ GameState.stats (GameRoot.gs self) !! k = None)
  ∧ (∀ k, k ∈ ending_keys →
       GameState.stats (GameRoot.gs self) !! k = None →
       (∀ k' v, k' ∈ ending_keys →
          GameState.stats (GameRoot.gs self) !! k' = Some v →
          at_boundary v = false) →
       ∃ k', GameRoot.check_ending_key self tape = Raise (KeyError k'))
  ∧ (∀ self',
       (∀ k, k ∈ ending_keys →
          GameState.stats (GameRoot.gs self) !! k
          = GameState.stats (GameRoot.gs self') !! k) →
       GameState.flags (GameRoot.gs self)
       = GameState.flags (GameRoot.gs self') →
       GameState.turn (GameRoot.gs self) = GameState.turn (GameRoot.gs self') →
       GameRoot.max_turns self = GameRoot.max_turns self' →
       GameRoot.check_ending_key self tape
       = GameRoot.check_ending_key self' tape).
Proof.
  split; [apply check_ending_key_scan|]. rewrite check_ending_key_scan.
  split; [|split; [|split]].
  - intros Hall.
    destruct (scan ending_table _) as [k|e|] eqn:Hscan; [|eauto..].
    apply scan_Missing in Hscan as (low & high & Hin & Hk).
    destruct (Hall k) as [v Hv]; [|congruence].
    apply elem_of_ending_keys. eauto.
  - intros x. destruct (scan ending_table _) as [k|e|] eqn:Hscan;
      [|done..].
    intros [= <-]. apply scan_Missing in Hscan as (low & high & Hin & Hk).
    exists k. split; [done|]. split; [|done].
    apply elem_of_ending_keys. eauto.
  - intros k (low & high & Hin)%elem_of_ending_keys Hk Hno.
    destruct (scan_missing_key ending_table
                (GameState.stats (GameRoot.gs self)) k low high Hin Hk)
      as [k' ->]; [|eauto].
    intros k' low' high' v Hin'. apply Hno, elem_of_ending_keys. eauto.
  - intros self' Hkeys Hf Ht Hm. rewrite check_ending_key_scan.
    rewrite (scan_ext ending_table _ (GameState.stats (GameRoot.gs self'))).
    + unfold turn_limit_outcome. by rewrite Hf, Ht, Hm.
    + intros k low high Hin. apply Hkeys, elem_of_ending_keys. eauto.
Qed.

(** The witness of C10: the demo game holds the five keys; the joy-only
    game at 50 lacks sadness; a sixth stat changes nothing. *)
Lemma C10_witness :
  (∃ r, GameRoot.check_ending_key demo_game [] = Ok (r, []))
  ∧ (∃ k, KeyError "sadness" = KeyError k ∧ k ∈ ending_keys
          ∧ GameState.stats (GameRoot.gs joy_only_start) !! k = None)
  ∧ (∃ k', GameRoot.check_ending_key joy_only_start []
           = Raise (KeyError k'))
  ∧ GameRoot.check_ending_key demo_game []
    = GameRoot.check_ending_key demo_with_luck [].
Proof.
  split; [|split; [|split]].
  - apply (proj1 (proj2 (C10_check_ending_reads_five_keys demo_game []))).
    intros k Hk. unfold ending_keys in Hk.
    repeat (apply elem_of_cons in Hk as [->|Hk]);
      [vm_compute; eauto..|by apply elem_of_nil in Hk].
  - apply (proj1 (proj2 (proj2
             (C10_check_ending_reads_five_keys joy_only_start [])))).
    vm_compute. reflexivity.
  - apply (proj1 (proj2 (proj2 (proj2
             (C10_check_ending_reads_five_keys joy_only_start []))))
             "sadness").
    + unfold ending_keys. apply elem_of_cons. right.
      apply elem_of_cons. by left.
    + vm_compute. reflexivity.
    + intros k' v Hk'. unfold ending_keys in Hk'.
      repeat (apply elem_of_cons in Hk' as [->|Hk']);
        [vm_compute; intros [= <-]; reflexivity
        |vm_compute; discriminate..
        |by apply elem_of_nil in Hk'].
  - apply (proj2 (proj2 (proj2 (proj2
             (C10_check_ending_reads_five_keys demo_game []))))
             demo_with_luck); try reflexivity.
    intros k Hk. unfold ending_keys in Hk.
    repeat (apply elem_of_cons in Hk as [->|Hk]);
      [vm_compute; reflexivity..|by apply elem_of_nil in Hk].
Defined.

(** * Further properties of the engine *)

(** ** [clamp] *)

(** X1. With [lo <= hi] the result of [clamp] lies between the bounds and
    is one of its three arguments; with the bounds the wrong way round the
    result is [lo], whatever [x] is. *)
Theorem X1_clamp_between x lo hi :
  (halves lo ≤ halves hi →
   halves lo ≤ halves (clamp x lo hi) ≤ halves hi
   ∧ (clamp x lo hi = x ∨ clamp x lo hi = lo ∨ clamp x lo hi = hi))
  ∧ (halves hi < halves lo → clamp x lo hi = lo).
Proof.
  unfold clamp, py_max, py_min, num_ltb. split; intros Hb.
  - repeat case_match; split; try lia; auto.
  - repeat case_match; try lia; done.
Qed.

Lemma X1_witness :
  (halves (Int 0) ≤ halves (clamp (Float 103) (Int 0) (Int 100))
   ≤ halves (Int 100)
   ∧ (clamp (Float 103) (Int 0) (Int 100) = Float 103
      ∨ clamp (Float 103) (Int 0) (Int 100) = Int 0
      ∨ clamp (Float 103) (Int 0) (Int 100) = Int 100))
  ∧ clamp (Int 7) (Int 100) (Int 0) = Int 100.
Proof.
  split.
  - apply (proj1 (X1_clamp_between (Float 103) (Int 0) (Int 100))).
    simpl. lia.
  - apply (proj2 (X1_clamp_between (Int 7) (Int 100) (Int 0))).
    simpl. lia.
Defined.

(** X2. [clamp] is idempotent, and monotone in its first argument. *)
Theorem X2_clamp_idempotent_monotone x y lo hi :
  clamp (clamp x lo hi) lo hi = clamp x lo hi
  ∧ (halves x ≤ halves y →
     halves (clamp x lo hi) ≤ halves (clamp y lo hi)).
Proof.
  unfold clamp, py_max, py_min, num_ltb. split.
  - repeat case_match; try lia; done.
  - intros Hxy. repeat case_match; lia.
Qed.

Lemma X2_witness :
  clamp (clamp (Float (-20)) (Int 0) (Int 100)) (Int 0) (Int 100)
  = clamp (Float (-20)) (Int 0) (Int 100)
  ∧ halves (clamp (Float (-20)) (Int 0) (Int 100))
    ≤ halves (clamp (Float 103) (Int 0) (Int 100)).
Proof.
  split.
  - apply (proj1 (X2_clamp_idempotent_monotone (Float (-20)) (Float 103)
                    (Int 0) (Int 100))).
  - apply (proj2 (X2_clamp_idempotent_monotone (Float (-20)) (Float 103)
                    (Int 0) (Int 100))).
    simpl. lia.
Defined.

(** ** [roll] *)

(** X3. A roll of the range [[a, b]] that returns gives a value within
    [a..b] and uses one draw of the tape; every value of the range is the
    roll of some tape; and a range [[a, a]] always rolls [a]. *)
Theorem X3_roll_range a b :
  (∀ tape n tape', roll (EList [a; b]) tape = Ok (n, tape') →
     a ≤ n ≤ b ∧ tape' = tl tape)
  ∧ (∀ n tape, a ≤ n ≤ b → roll (EList [a; b]) ((n - a) :: tape) = Ok (n, tape))
  ∧ (a = b → ∀ tape, roll (EList [a; b]) tape = Ok (a, tl tape)).
Proof.
  unfold roll, randint, bind, draw, ret. split; [|split].
  - intros tape n tape'. destruct (a <=? b) eqn:Hab; [|discriminate].
    intros [= <- <-]. split; [|done].
    pose proof (Z.mod_pos_bound (hd 0 tape) (b - a + 1)). lia.
  - intros n tape Hn. destruct (a <=? b) eqn:Hab; [|lia]. simpl.
    rewrite Z.mod_small by lia. do 2 f_equal. lia.
  - intros -> tape. rewrite Z.leb_refl. do 2 f_equal.
    replace (b - b + 1) with 1 by lia. rewrite Z.mod_1_r. lia.
Qed.

Lemma X3_witness :
  (2 ≤ 2 ≤ 5 ∧ [9] = tl [8; 9])
  ∧ roll (EList [2; 5]) [3 - 2; 7] = Ok (3, [7])
  ∧ roll (EList [4; 4]) [11; 12] = Ok (4, tl [11; 12]).
Proof.
  pose proof (X3_roll_range 2 5) as (Hin & Hall & _).
  pose proof (X3_roll_range 4 4) as (_ & _ & Hsame).
  split; [|split].
  - apply (Hin [8; 9] 2 [9]). reflexivity.
  - apply (Hall 3 [7]). lia.
  - apply (Hsame eq_refl [11; 12]).
Defined.

(** X4. [roll] raises in two cases only: [ValueError] for a two-element
    list with [lo > hi], and [TypeError] for a list that does not have
    exactly two elements; a plain integer is returned as it is and no draw
    is used. *)
Theorem X4_roll_errors v tape :
  (∀ e, roll v tape = Raise e ↔
        (e = ValueError ∧ ∃ lo hi, v = EList [lo; hi] ∧ hi < lo)
        ∨ (e = TypeError ∧ ∃ l, v = EList l ∧ length l ≠ 2%nat))
  ∧ (∀ n, v = EInt n → roll v tape = Ok (n, tape)).
Proof.
  split; [|by intros n ->].
  intros e. destruct v as [n|[|a [|b [|c l]]]]; simpl.
  - split; [done|]. by intros [(_ & lo & hi & ? & _)|(_ & l & ? & _)].
  - split.
    + intros [= <-]. right. split; [done|]. by exists [].
    + intros [(_ & lo & hi & ? & _)|(-> & _)]; done.
  - split.
    + intros [= <-]. right. split; [done|]. by exists [a].
    + intros [(_ & lo & hi & ? & _)|(-> & _)]; done.
  - unfold randint, bind, draw, ret, raise.
    destruct (a <=? b) eqn:Hab; split.
    + done.
    + intros [(_ & lo & hi & [= -> ->] & Hlt)|(_ & l & [= <-] & Hlen)];
        [lia|done].
    + intros [= <-]. left. split; [done|]. exists a, b. split; [done|lia].
    + intros [(-> & _)|(_ & l & [= <-] & Hlen)]; done.
  - split.
    + intros [= <-]. right. split; [done|].
      exists (a :: b :: c :: l). split; [done|]. simpl. lia.
    + intros [(_ & lo & hi & ? & _)|(-> & _)]; done.
Qed.

Lemma X4_witness : roll (EInt (-40)) [5] = Ok (-40, [5]).
Proof. apply (proj2 (X4_roll_errors (EInt (-40)) [5]) (-40)). reflexivity. Defined.

(** ** [apply_effects] and [apply_flags] *)

Lemma apply_effects_frame self effects tape self' tape' :
  GameRoot.apply_effects self effects tape = Ok (self', tape') →
  ∃ m', self' = GameRoot.set_gs
                  (GameState.set_stats m' (GameRoot.gs self)) self
    ∧ (∀ k, k ∉ effects.*1 →
         m' !! k = GameState.stats (GameRoot.gs self) !! k)
    ∧ (∀ k, is_Some (m' !! k)
            ↔ is_Some (GameState.stats (GameRoot.gs self) !! k)).
Proof.
  revert self tape.
  induction effects as [|[k v] effects IH]; intros self tape H; simpl in H.
  - apply ret_Ok in H as [= -> ->].
    exists (GameState.stats (GameRoot.gs self)).
    split; [by destruct self as [? ? ? ? [] ? ? ?]|done].
  - destruct (GameState.stats (GameRoot.gs self) !! k) as [cur|] eqn:Hk.
    + inv_bind H. inv_bind H.
      apply IH in H as (m' & -> & Hframe & Hdom). simpl in *.
      exists m'. split; [by destruct self as [? ? ? ? [] ? ? ?]|]. split.
      * intros k' Hk'. rewrite Hframe by set_solver.
        apply lookup_insert_ne. set_solver.
      * intros k'. rewrite Hdom.
        destruct (decide (k = k')) as [<-|Hne].
        -- rewrite lookup_insert_eq, Hk. split; eauto.
        -- by rewrite lookup_insert_ne.
    + apply IH in H as (m' & -> & Hframe & Hdom).
      exists m'. split; [done|]. split; [|done].
      intros k' Hk'. apply Hframe. set_solver.
Qed.

(** X5. [apply_effects] changes nothing but stat values: the stats it
    returns have the same keys as before (no stat is created or removed),
    a stat that no effect names keeps its value, and flags, turn, last
    card and every other field of the game are as they were. *)
Theorem X5_apply_effects_frame self effects tape self' tape' :
  GameRoot.apply_effects self effects tape = Ok (self', tape') →
  (∀ k, is_Some (GameState.stats (GameRoot.gs self') !! k)
        ↔ is_Some (GameState.stats (GameRoot.gs self) !! k))
  ∧ (∀ k, k ∉ effects.*1 →
       GameState.stats (GameRoot.gs self') !! k
       = GameState.stats (GameRoot.gs self) !! k)
  ∧ self' = GameRoot.set_gs
              (GameState.set_stats (GameState.stats (GameRoot.gs self'))
                 (GameRoot.gs self)) self.
Proof.
  intros (m' & -> & Hframe & Hdom)%apply_effects_frame. simpl. done.
Qed.

Lemma X5_witness :
  (∀ k, is_Some (<["joy" := Int 0]> (GameRoot.fresh_stats ending_keys) !! k)
        ↔ is_Some (GameState.stats (GameRoot.gs demo_game) !! k))
  ∧ (∀ k, k ∉ [("joy", EInt (-40))].*1 →
       <["joy" := Int 0]> (GameRoot.fresh_stats ending_keys) !! k
       = GameState.stats (GameRoot.gs demo_game) !! k).
Proof.
  pose proof (X5_apply_effects_frame demo_game [("joy", EInt (-40))] []
                (GameRoot.set_gs
                   (GameState.set_stats
                      (<["joy" := Int 0]> (GameRoot.fresh_stats ending_keys))
                      (GameRoot.gs demo_game)) demo_game) [] eq_refl)
    as (Hdom & Hframe & _).
  split; [exact Hdom|exact Hframe].
Defined.

(** X6. When the keys of the effects are distinct (as in a dict), a fixed
    effect [k: n] on a stat worth [cur] leaves that stat at
    [clamp(cur + 1.5 * n, 0, 100)], unrounded, whatever the other effects
    are. *)
Theorem X6_apply_effects_fixed self effects tape self' tape' k n cur :
  NoDup effects.*1 →
  (k, EInt n) ∈ effects →
  GameState.stats (GameRoot.gs self) !! k = Some cur →
  GameRoot.apply_effects self effects tape = Ok (self', tape') →
  GameState.stats (GameRoot.gs self') !! k
  = Some (clamp (num_add cur (Float (3 * n))) (Int 0) (Int 100)).
Proof.
  revert self tape.
  induction effects as [|[k0 v0] effects IH]; intros self tape Hnd Hin Hk H.
  { by apply elem_of_nil in Hin. }
  apply NoDup_cons in Hnd as [Hk0 Hnd]. simpl in H.
  apply elem_of_cons in Hin as [[= <- <-]|Hin].
  - rewrite Hk in H. inv_bind H. inv_bind H.
    apply ret_Ok in Hstep as [= -> ->].
    unfold mul_1_5 in Hstep0. case_match; [discriminate|].
    apply ret_Ok in Hstep0 as [= -> ->].
    apply apply_effects_frame in H as (m' & -> & Hframe & _). simpl.
    rewrite Hframe by done. simpl. by rewrite lookup_insert_eq.
  - assert (k0 ≠ k) as Hne.
    { intros ->. apply Hk0. apply list_elem_of_fmap. by exists (k, EInt n). }
    destruct (GameState.stats (GameRoot.gs self) !! k0) as [cur0|] eqn:Hk0'.
    + inv_bind H. inv_bind H.
      eapply IH in H; [exact H|done|done|].
      simpl. by rewrite lookup_insert_ne.
    + by eapply IH in H.
Qed.

Lemma X6_witness :
  GameState.stats
    (GameRoot.gs
       (GameRoot.set_gs
          (GameState.set_stats
             (<["sadness" := Float 103]>
                (<["joy" := Int 0]> (GameRoot.fresh_stats ending_keys)))
             (GameRoot.gs demo_game)) demo_game)) !! "sadness"
  = Some (clamp (num_add (Int 50) (Float (3 * 1))) (Int 0) (Int 100)).
Proof.
  apply (X6_apply_effects_fixed demo_game
           [("joy", EInt (-40)); ("sadness", EInt 1)] [] _ [] "sadness" 1
           (Int 50)).
  - apply NoDup_cons. split.
    + intros [[=]|Hin%elem_of_nil]%elem_of_cons. done.
    + apply NoDup_singleton.
  - apply elem_of_cons. right. apply elem_of_cons. by left.
  - vm_compute. reflexivity.
  - vm_compute. reflexivity.
Defined.

(** X7. After [apply_flags] a flag is set exactly when it is not in the
    clear list and was either set before or is in the set list: a flag
    named in both lists ends up cleared.  Stats, turn and last card are
    untouched. *)
Theorem X7_apply_flags self set_flags clear_flags :
  (∀ f, f ∈ GameState.flags
              (GameRoot.gs (GameRoot.apply_flags self set_flags clear_flags))
        ↔ (f ∈ set_flags ∨ f ∈ GameState.flags (GameRoot.gs self))
          ∧ f ∉ clear_flags)
  ∧ GameRoot.apply_flags self set_flags clear_flags
    = GameRoot.set_gs
        (GameState.set_flags
           (GameState.flags
              (GameRoot.gs (GameRoot.apply_flags self set_flags clear_flags)))
           (GameRoot.gs self)) self.
Proof.
  split; [|done]. intros f. rewrite apply_flags_flags.
  rewrite elem_of_difference, elem_of_union, !elem_of_list_to_set. done.
Qed.

(** ** The weighted draw *)

Lemma bisect_interval (pre : list CardDef.t) c post first rest x :
  first :: rest = (pre ++ c :: post)%list →
  total_weight pre ≤ x < total_weight pre + Z.max 1 (CardDef.weight c) →
  GameRoot.bisect first rest
    (map (λ c, Z.max 1 (CardDef.weight c)) (first :: rest)) x = c.
Proof.
  revert first rest x.
  induction pre as [|p pre IH]; intros first rest x Heq Hx.
  - injection Heq as -> ->. unfold total_weight in Hx. simpl in *.
    destruct post as [|c' post]; [done|]. simpl.
    destruct (x <? 1 `max` CardDef.weight c) eqn:Hlt; [done|lia].
  - injection Heq as -> ->.
    pose proof (total_weight_nonneg pre) as Hpre.
    unfold total_weight in Hx, Hpre. simpl in Hx.
    destruct (pre ++ c :: post)%list as [|f r] eqn:Hrest.
    { by destruct pre. }
    cbn [GameRoot.bisect map].
    destruct (x <? 1 `max` CardDef.weight p) eqn:Hlt; [lia|].
    apply (IH f r (x - 1 `max` CardDef.weight p)); [done|].
    unfold total_weight. lia.
Qed.

(** X8. In the weighted draw each card of the pool owns a stretch of the
    draws [0 .. total-1] as long as its weight [max(1, weight)], in pool
    order: a draw that falls in the stretch of a card picks that card.  So
    a card is picked in proportion to its weight, a weight below 1 counting
    as 1. *)
Theorem X8_weighted_draw self (pre : list CardDef.t) c post d tape :
  GameRoot.eligible_cards self = (pre ++ c :: post)%list →
  total_weight (pre ++ c :: post)%list < float_overflow →
  total_weight pre ≤ d mod total_weight (pre ++ c :: post)%list
  < total_weight pre + Z.max 1 (CardDef.weight c) →
  GameRoot.pick_card self (d :: tape) = Ok (c, tape).
Proof.
  intros Hpool Hw Hd. unfold GameRoot.pick_card, GameRoot.choices.
  rewrite Hpool. destruct (pre ++ c :: post)%list as [|f r] eqn:Heq.
  { by destruct pre. }
  fold (total_weight (f :: r)).
  destruct (float_overflow <=? total_weight (f :: r)) eqn:Hov; [lia|].
  unfold bind, draw, ret. cbn [hd tl]. do 2 f_equal.
  by apply (bisect_interval pre c post).
Qed.

(** The witness of X8: with weights 1 and 3 the draws 0 | 1 2 3 go to the
    first and to the second card. *)
Lemma X8_witness :
  GameRoot.pick_card two_card_game [0; 9] = Ok (card_A, [9])
  ∧ GameRoot.pick_card two_card_game [1; 9] = Ok (card_B, [9])
  ∧ GameRoot.pick_card two_card_game [7; 9] = Ok (card_B, [9]).
Proof.
  split; [|split].
  - apply (X8_weighted_draw two_card_game [] card_A [card_B] 0 [9]);
      [reflexivity|vm_compute; reflexivity|]; split; [vm_compute; discriminate|vm_compute; reflexivity].
  - apply (X8_weighted_draw two_card_game [card_A] card_B [] 1 [9]);
      [reflexivity|vm_compute; reflexivity|]; split; [vm_compute; discriminate|vm_compute; reflexivity].
  - apply (X8_weighted_draw two_card_game [card_A] card_B [] 7 [9]);
      [reflexivity|vm_compute; reflexivity|]; split; [vm_compute; discriminate|vm_compute; reflexivity].
Defined.

(** ** The invariant of a run *)

Lemma refresh_rows_lookup ks s rows tape rows' tape' k :
  GameRoot.refresh_rows ks s rows tape = Ok (rows', tape') →
  rows' !! k = if bool_decide (k ∈ ks) then s !! k else rows !! k.
Proof.
  revert rows. induction ks as [|k0 ks IH]; intros rows H; simpl in H.
  - apply ret_Ok in H as [= -> ->].
    case_bool_decide as Hin; [by apply elem_of_nil in Hin|done].
  - inv_bind H. apply getitem_Ok in Hstep as [_ ->].
    inv_bind H. apply getitem_Ok in Hstep as [Hs ->].
    rewrite (IH _ H). clear IH H.
    destruct (decide (k = k0)) as [->|Hne].
    + rewrite lookup_insert_eq, Hs.
      rewrite (bool_decide_eq_true_2 (k0 ∈ k0 :: ks)) by set_solver.
      by case_bool_decide.
    + rewrite lookup_insert_ne by done.
      destruct (decide (k ∈ ks)) as [Hin|Hin].
      * rewrite !bool_decide_eq_true_2; [done|set_solver|done].
      * rewrite !bool_decide_eq_false_2; [done|set_solver|done].
Qed.

Lemma refresh_rows_sync ks s rows tape rows' tape' :
  (∀ k, is_Some (s !! k) ↔ k ∈ ks) →
  (∀ k, is_Some (rows !! k) → k ∈ ks) →
  GameRoot.refresh_rows ks s rows tape = Ok (rows', tape') →
  rows' = s.
Proof.
  intros Hs Hrows H. apply map_eq. intros k.
  rewrite (refresh_rows_lookup _ _ _ _ _ _ k H).
  case_bool_decide as Hin; [done|].
  destruct (rows !! k) as [v|] eqn:Hr.
  - destruct Hin. apply Hrows. rewrite Hr. eauto.
  - destruct (s !! k) as [v|] eqn:Hk; [|done].
    destruct Hin. apply Hs. rewrite Hk. eauto.
Qed.

Lemma refresh_stats_sync self tape self' tape' :
  (∀ k, is_Some (GameState.stats (GameRoot.gs self) !! k)
        ↔ k ∈ GameRoot.stats self) →
  (∀ k, is_Some (GameRoot.stat_rows self !! k) → k ∈ GameRoot.stats self) →
  GameRoot.refresh_stats self tape = Ok (self', tape') →
  self' = GameRoot.set_stat_rows (GameState.stats (GameRoot.gs self)) self.
Proof.
  intros Hs Hrows. unfold GameRoot.refresh_stats. intros H. inv_bind H.
  apply refresh_rows_sync in Hstep; [|done..].
  apply ret_Ok in H as [= -> ->]. by rewrite Hstep.
Qed.

Lemma fresh_stats_keys ks k :
  is_Some (GameRoot.fresh_stats ks !! k) ↔ k ∈ ks.
Proof.
  rewrite fresh_stats_lookup.
  case_bool_decide as Hin; [split; eauto|split; [by intros [? ?]|done]].
Qed.

Lemma start_game_inv tr deck tape g tape' :
  FeelingsApp.start_game tr deck tape = Ok (g, tape') → run_inv g.
Proof.
  unfold FeelingsApp.start_game, GameRoot.init. intros H. inv_bind H.
  apply refresh_stats_sync in Hstep;
    [|apply fresh_stats_keys|by intros k ?%fresh_stats_keys].
  subst a. apply next_card_Ok in H as (c & Hc & ->).
  apply eligible_cards_subseteq in Hc. simpl in *.
  split; simpl; try done.
  - apply fresh_stats_keys.
  - eauto.
  - by left.
Qed.

Lemma restart_inv g tape g' tape' :
  run_inv g → GameRoot.restart g tape = Ok (g', tape') → run_inv g'.
Proof.
  intros [Hrows Hkeys Hcard Hin Hturn Hstage Hplay].
  unfold GameRoot.restart. intros H. inv_bind H.
  apply refresh_stats_sync in Hstep; simpl.
  2:{ apply fresh_stats_keys. }
  2:{ intros k. rewrite Hrows. apply Hkeys. }
  subst a. apply next_card_Ok in H as (c & Hc & ->).
  apply eligible_cards_subseteq in Hc. simpl in *.
  split; simpl; try done.
  - apply fresh_stats_keys.
  - eauto.
  - by left.
Qed.

Lemma decide_inv g direction tape g' tape' :
  run_inv g →
  GameRoot.decide g direction tape = Ok (g', tape') → run_inv g'.
Proof.
  intros Hinv H. destruct (current_card g) as [c|] eqn:Hc.
  2:{ rewrite decide_no_card in H by done. by injection H as <- <-. }
  destruct Hinv as [Hrows Hkeys Hcard Hin Hturn Hstage Hplay].
  destruct (decide_Ok _ _ _ _ _ _ Hc H)
    as (self1 & tape1 & self3 & Heff & Href & Hend). clear H.
  apply apply_effects_frame in Heff as (m' & -> & _ & Hdom).
  apply refresh_stats_sync in Href; simpl.
  2:{ intros k. rewrite Hdom. apply Hkeys. }
  2:{ intros k. rewrite Hrows. apply Hkeys. }
  simpl in Href.
  destruct Hend as [(e & He & H)|[He H]].
  - apply show_end_Ok in H as (_ & final & ->). subst self3.
    split; simpl; try done.
    + intros k. rewrite Hdom. apply Hkeys.
    + lia.
    + right. eauto.
  - apply next_card_Ok in H as (c' & Hc' & Hg').
    apply eligible_cards_subseteq in Hc'.
    assert (∀ t, GameRoot.check_ending_key g' t = Ok (None, t)) as Hnone.
    { intros t. rewrite <-(check_ending_key_any_tape _ _ t _ He).
      subst g'. by apply check_ending_key_ext. }
    subst g' self3. simpl in *.
    split; simpl; try done.
    + intros k. rewrite Hdom. apply Hkeys.
    + eauto.
    + lia.
Qed.

Lemma reachable_inv tr deck g : reachable tr deck g → run_inv g.
Proof.
  induction 1 as [tape g tape' H|g d tape g' tape' _ IH H
                 |g ti bo fi tape g' tape' _ IH _ H].
  - by eapply start_game_inv.
  - by eapply decide_inv.
  - by eapply restart_inv.
Qed.

(** X9. In every reachable game the stats are exactly the stats the deck
    declares (no decision creates or drops one), and every stat row shows
    the current value of its stat. *)
Theorem X9_rows_show_the_stats tr deck g :
  reachable tr deck g →
  GameRoot.stat_rows g = GameState.stats (GameRoot.gs g)
  ∧ ∀ k, is_Some (GameState.stats (GameRoot.gs g) !! k)
         ↔ k ∈ deck_stats deck.
Proof.
  intros Hg. pose proof (reachable_inv _ _ _ Hg) as Hinv.
  split; [apply Hinv|]. intros k.
  rewrite <-(wf_stats _ _ _ (reachable_wf _ _ _ Hg)). apply Hinv.
Qed.

Lemma X9_witness :
  GameRoot.stat_rows demo_ended = GameState.stats (GameRoot.gs demo_ended)
  ∧ ∀ k, is_Some (GameState.stats (GameRoot.gs demo_ended) !! k)
         ↔ k ∈ deck_stats demo_deck.
Proof.
  apply (X9_rows_show_the_stats tr0 demo_deck demo_ended).
  apply (reach_decide tr0 demo_deck demo_game "L" [] demo_ended []).
  - apply (reach_start tr0 demo_deck [] demo_game []). vm_compute. reflexivity.
  - vm_compute. reflexivity.
Defined.

(** X10. In every reachable game the card widget holds the id of the last
    card drawn, and that id is the id of a card of the deck. *)
Theorem X10_shown_card_is_last_card tr deck g :
  reachable tr deck g →
  GameRoot.card_id g = GameState.last_card_id (GameRoot.gs g)
  ∧ ∃ c, c ∈ deck_cards deck ∧ GameRoot.card_id g = Some (CardDef.id c).
Proof.
  intros Hg. pose proof (reachable_inv _ _ _ Hg) as Hinv.
  split; [apply Hinv|].
  rewrite <-(wf_cards _ _ _ (reachable_wf _ _ _ Hg)). apply Hinv.
Qed.

Lemma X10_witness :
  GameRoot.card_id demo_right = GameState.last_card_id (GameRoot.gs demo_right)
  ∧ ∃ c, c ∈ deck_cards demo_deck
         ∧ GameRoot.card_id demo_right = Some (CardDef.id c).
Proof.
  apply (X10_shown_card_is_last_card tr0 demo_deck demo_right).
  apply (reach_decide tr0 demo_deck demo_game "R" [] demo_right []).
  - apply (reach_start tr0 demo_deck [] demo_game []). vm_compute. reflexivity.
  - vm_compute. reflexivity.
Defined.

(** X11. In every reachable game the stage holds either the card widget
    alone or one end screen alone, the turn counter is not negative, and
    while the card widget is on the stage after at least one decision no
    ending condition holds: a run is never continued past an ending. *)
Theorem X11_no_play_past_an_ending tr deck g :
  reachable tr deck g →
  (GameRoot.stage g = [CardWidget]
   ∨ ∃ title body final, GameRoot.stage g = [EndScreen title body final])
  ∧ 0 ≤ GameState.turn (GameRoot.gs g)
  ∧ (GameRoot.stage g = [CardWidget] →
     0 < GameState.turn (GameRoot.gs g) →
     ∀ tape, GameRoot.check_ending_key g tape = Ok (None, tape)).
Proof.
  intros Hg. pose proof (reachable_inv _ _ _ Hg) as Hinv.
  split; [apply Hinv|]. split; apply Hinv.
Qed.

Lemma X11_witness :
  (GameRoot.stage demo_right = [CardWidget]
   ∨ ∃ title body final,
       GameRoot.stage demo_right = [EndScreen title body final])
  ∧ 0 ≤ GameState.turn (GameRoot.gs demo_right)
  ∧ (GameRoot.stage demo_right = [CardWidget] →
     0 < GameState.turn (GameRoot.gs demo_right) →
     ∀ tape, GameRoot.check_ending_key demo_right tape = Ok (None, tape)).
Proof.
  apply (X11_no_play_past_an_ending tr0 demo_deck demo_right).
  apply (reach_decide tr0 demo_deck demo_game "R" [] demo_right []).
  - apply (reach_start tr0 demo_deck [] demo_game []). vm_compute. reflexivity.
  - vm_compute. reflexivity.
Defined.

(** ** Decisions, composed *)

(** X12. A decision that finds its card and returns with the turn counter
    at or beyond the turn limit has put an end screen on the stage: no card
    is drawn once the limit is reached. *)
Theorem X12_turn_limit_ends self direction c tape self' tape' :
  current_card self = Some c →
  GameRoot.decide self direction tape = Ok (self', tape') →
  GameRoot.max_turns self ≤ GameState.turn (GameRoot.gs self) + 1 →
  ∃ e final,
    GameRoot.stage self'
    = [EndScreen (ending_text (GameRoot.tr self) e).1
         (ending_text (GameRoot.tr self) e).2 final].
Proof.
  intros Hc H Hmax.
  destruct (decide_Ok _ _ _ _ _ _ Hc H)
    as (self1 & tape1 & self3 & Heff & Href & Hend). clear H.
  apply apply_effects_Ok in Heff as (m' & -> & _ & _).
  apply refresh_stats_Ok in Href as (_ & rows' & -> & _ & _).
  destruct Hend as [(e & He & H)|[He H]].
  - apply show_end_Ok in H as (_ & final & ->). by exists e, final.
  - exfalso. revert He. rewrite check_ending_key_scan.
    destruct (scan _ _); [done|done|].
    unfold turn_limit_outcome. simpl.
    destruct (GameRoot.max_turns self <=? _) eqn:Hle; [|lia].
    by case_bool_decide.
Qed.

(** The witness of X12: the bad deck has turn limit 0, so its first
    decision ends the run. *)
Lemma X12_witness :
  ∃ e final,
    GameRoot.stage
      (GameRoot.set_stage
         [EndScreen "ending.HARMONY.title" "ending.HARMONY.body"
            [Int 50; Int 50; Int 50; Int 50; Int 50]]
         (bump_turn bad_game))
    = [EndScreen (ending_text (GameRoot.tr bad_game) e).1
         (ending_text (GameRoot.tr bad_game) e).2 final].
Proof.
  apply (X12_turn_limit_ends bad_game "L" bad_card [] _ []).
  - vm_compute. reflexivity.
  - vm_compute. reflexivity.
  - vm_compute. discriminate.
Defined.

(** X13. When a decision on a reachable game leaves the run going and the
    same card is shown again, no card with another id meets its flag
    conditions in the new state: a card is repeated at once only when there
    is nothing else to draw. *)
Theorem X13_no_immediate_repeat tr deck g direction c tape g' tape' :
  reachable tr deck g →
  current_card g = Some c →
  GameRoot.decide g direction tape = Ok (g', tape') →
  GameRoot.check_ending_key g' tape' = Ok (None, tape') →
  GameRoot.card_id g' = GameRoot.card_id g →
  ∀ c', c' ∈ deck_cards deck →
    Some (CardDef.id c') ≠ GameRoot.card_id g →
    ¬ (Forall (λ f, f ∈ GameState.flags (GameRoot.gs g'))
         (CardDef.require_flags c')
       ∧ Forall (λ f, f ∉ GameState.flags (GameRoot.gs g'))
           (CardDef.forbid_flags c')).
Proof.
  intros Hg Hc H Hnone Hsame c' Hc' Hid [Hreq Hforb].
  pose proof (reachable_inv _ _ _ Hg) as Hinv.
  pose proof (reachable_wf _ _ _ Hg) as Hwf.
  destruct (decide_Ok _ _ _ _ _ _ Hc H)
    as (self1 & tape1 & self3 & Heff & Href & Hend). clear H.
  apply apply_effects_Ok in Heff as (m' & Hself1 & _ & _).
  apply refresh_stats_Ok in Href as (_ & rows' & Hself3 & _ & _).
  destruct Hend as [(e & He & H)|[He H]].
  - apply show_end_Ok in H as (-> & final & Hg').
    rewrite (check_ending_key_ext g' self3) in Hnone by by subst g'.
    congruence.
  - apply next_card_Ok in H as (c'' & Hc'' & Hg').
    assert (GameState.last_card_id (GameRoot.gs self3) = GameRoot.card_id g)
      as Hlast.
    { subst self3 self1. simpl. symmetry. apply Hinv. }
    assert (GameRoot.card_id g' = Some (CardDef.id c'')) as Hid'
      by by subst g'.
    assert (GameState.flags (GameRoot.gs g')
            = GameState.flags (GameRoot.gs self3)) as Hflags by by subst g'.
    assert (GameRoot.cards self3 = deck_cards deck) as Hcards.
    { subst self3 self1. simpl. apply Hwf. }
    rewrite Hflags in Hreq, Hforb.
    rewrite eligible_cards_spec in Hc''. unfold spec_eligible_cards in Hc''.
    case_decide as Hout.
    + assert (c' ∈ filter (eligible_spec (GameRoot.gs self3))
                      (GameRoot.cards self3)) as Hin.
      { apply list_elem_of_filter. split; [|by rewrite Hcards].
        split; [by rewrite Hlast|done]. }
      rewrite Hout in Hin. by apply elem_of_nil in Hin.
    + apply list_elem_of_filter in Hc'' as [[Hnot _] _].
      apply Hnot. rewrite Hlast. congruence.
Qed.

(** The witness of X13: in the gated deck the first card comes back after a
    decision, and the other card lacks its required flag. *)
Lemma X13_witness :
  GameRoot.card_id gated_game_next = GameRoot.card_id gated_game
  ∧ ¬ (Forall (λ f, f ∈ GameState.flags (GameRoot.gs gated_game_next))
         (CardDef.require_flags gated_card)
       ∧ Forall (λ f, f ∉ GameState.flags (GameRoot.gs gated_game_next))
           (CardDef.forbid_flags gated_card)).
Proof.
  split; [reflexivity|].
  apply (X13_no_immediate_repeat tr0 gated_deck gated_game "R" card_A []
           gated_game_next []).
  - apply (reach_start tr0 gated_deck [] gated_game []).
    vm_compute. reflexivity.
  - vm_compute. reflexivity.
  - vm_compute. reflexivity.
  - vm_compute. reflexivity.
  - reflexivity.
  - apply elem_of_cons. right. apply elem_of_cons. by left.
  - discriminate.
Defined.

(** X14. Restarting from any reachable game gives exactly what
    [start_game] gives for the deck on the same random tape: nothing of the
    finished run survives. *)
Theorem X14_restart_is_start tr deck g tape :
  reachable tr deck g →
  GameRoot.restart g tape = FeelingsApp.start_game tr deck tape.
Proof.
  intros Hg.
  pose proof (reachable_inv _ _ _ Hg) as [Hrows Hkeys _ _ _ _ _].
  pose proof (reachable_wf _ _ _ Hg) as [Htr Hst Hmax Hcards _ _ _].
  unfold GameRoot.restart, FeelingsApp.start_game, GameRoot.init.
  set (fresh := GameState.mk (GameRoot.fresh_stats (GameRoot.stats g)) ∅ 0
                  None).
  destruct (refresh_stats_total
              (GameRoot.set_gs fresh (GameRoot.set_stage [] g)) tape)
    as [rows Href].
  { intros k Hk. simpl. split; [by apply fresh_stats_keys|].
    rewrite Hrows. by apply Hkeys. }
  pose proof Href as Hsync. apply refresh_stats_sync in Hsync; simpl.
  2:{ apply fresh_stats_keys. }
  2:{ intros k. rewrite Hrows. apply Hkeys. }
  rewrite (bind_eq_Ok _ _ _ _ _ Href), Hsync.
  set (self0 := GameRoot.mk tr (deck_stats deck) (deck_max_turns deck)
                  (deck_cards deck)
                  (GameState.mk (GameRoot.fresh_stats (deck_stats deck)) ∅ 0
                     None)
                  (GameRoot.fresh_stats (deck_stats deck)) None
                  [CardWidget]).
  destruct (refresh_stats_total self0 tape) as [rows0 Href0].
  { intros k Hk. simpl. split; by apply fresh_stats_keys. }
  pose proof Href0 as Hsync0. apply refresh_stats_sync in Hsync0; simpl.
  2:{ apply fresh_stats_keys. }
  2:{ intros k. apply fresh_stats_keys. }
  rewrite (bind_eq_Ok _ _ _ _ _ Href0), Hsync0.
  f_equal. subst fresh self0. simpl.
  unfold GameRoot.set_stage, GameRoot.set_card_id, GameRoot.set_stat_rows,
    GameRoot.set_gs. simpl. by rewrite Htr, Hst, Hmax, Hcards.
Qed.

Lemma X14_witness :
  GameRoot.restart demo_ended [5] = FeelingsApp.start_game tr0 demo_deck [5].
Proof.
  apply (X14_restart_is_start tr0 demo_deck demo_ended [5]).
  apply (reach_decide tr0 demo_deck demo_game "L" [] demo_ended []).
  - apply (reach_start tr0 demo_deck [] demo_game []). vm_compute. reflexivity.
  - vm_compute. reflexivity.
Defined.

(** X15. In a reachable game the card on display can be decided unless its
    id is the empty string: with an empty id every decision returns the
    game unchanged and draws nothing, so the run is stuck on that card;
    with any other id [decide] finds a card of the deck carrying it. *)
Theorem X15_empty_id_freezes_the_run tr deck g :
  reachable tr deck g →
  (GameRoot.card_id g = Some "" →
   ∀ direction tape, GameRoot.decide g direction tape = Ok (g, tape))
  ∧ (GameRoot.card_id g ≠ Some "" →
     ∃ c, current_card g = Some c ∧ c ∈ deck_cards deck
          ∧ GameRoot.card_id g = Some (CardDef.id c)).
Proof.
  intros Hg.
  pose proof (reachable_inv _ _ _ Hg) as [_ _ _ (c0 & Hc0 & Hid) _ _ _].
  pose proof (reachable_wf _ _ _ Hg) as [_ _ _ Hcards _ _ _].
  split.
  - intros Hempty direction tape. apply decide_no_card.
    unfold current_card. by rewrite Hempty.
  - intros Hne. rewrite Hid in Hne.
    assert (CardDef.id c0 ≠ "") as Hne' by congruence.
    unfold current_card. rewrite Hid, bool_decide_eq_false_2 by done.
    destruct (List.find _ _) as [c|] eqn:Hfind.
    + apply find_some in Hfind as [Hc Hidc].
      apply bool_decide_eq_true in Hidc. exists c.
      split; [done|]. split; [|by rewrite Hidc].
      rewrite <-Hcards. by apply list_elem_of_In.
    + apply list_elem_of_In in Hc0.
      apply (find_none _ _ Hfind) in Hc0.
      by apply bool_decide_eq_false in Hc0.
Qed.

(** The witness of X15: the deck whose card has the empty id, and the demo
    deck. *)
Lemma X15_witness :
  GameRoot.decide nameless_game "L" [7] = Ok (nameless_game, [7])
  ∧ ∃ c, current_card demo_game = Some c ∧ c ∈ deck_cards demo_deck
         ∧ GameRoot.card_id demo_game = Some (CardDef.id c).
Proof.
  split.
  - apply (proj1 (X15_empty_id_freezes_the_run tr0 nameless_deck
                    nameless_game
                    (reach_start tr0 nameless_deck [] nameless_game []
                       eq_refl)) eq_refl "L" [7]).
  - apply (proj2 (X15_empty_id_freezes_the_run tr0 demo_deck demo_game
                    (reach_start tr0 demo_deck [] demo_game [] eq_refl))).
    discriminate.
Defined.

(** X16. A decision that finds its card and returns has resolved exactly
    one branch of it, the left one for ["L"] and the right one otherwise: a
    flag is set afterwards iff it is not in that branch's clear list and
    was set before or is in its set list; a stat that the branch's effects
    do not name keeps its value; and translator, declared stats, turn limit
    and cards are untouched. *)
Theorem X16_decide_resolves_one_branch self direction c tape self' tape' :
  current_card self = Some c →
  GameRoot.decide self direction tape = Ok (self', tape') →
  (∀ f, f ∈ GameState.flags (GameRoot.gs self')
        ↔ (f ∈ (branch c direction).1.2
           ∨ f ∈ GameState.flags (GameRoot.gs self))
          ∧ f ∉ (branch c direction).2)
  ∧ (∀ k, k ∉ ((branch c direction).1.1).*1 →
       GameState.stats (GameRoot.gs self') !! k
       = GameState.stats (GameRoot.gs self) !! k)
  ∧ GameRoot.tr self' = GameRoot.tr self
  ∧ GameRoot.stats self' = GameRoot.stats self
  ∧ GameRoot.max_turns self' = GameRoot.max_turns self
  ∧ GameRoot.cards self' = GameRoot.cards self.
Proof.
  intros Hc H.
  destruct (decide_Ok _ _ _ _ _ _ Hc H)
    as (self1 & tape1 & self3 & Heff & Href & Hend). clear H.
  apply apply_effects_frame in Heff as (m' & Hself1 & Hframe & _).
  apply refresh_stats_Ok in Href as (_ & rows' & Hself3 & _ & _).
  assert (GameState.flags (GameRoot.gs self3)
          = GameState.flags
              (GameRoot.gs (GameRoot.apply_flags self1
                              (branch c direction).1.2
                              (branch c direction).2))) as Hflags
    by by subst self3.
  assert (GameState.stats (GameRoot.gs self3) = m') as Hstats
    by by subst self3 self1.
  assert (∀ f, f ∈ GameState.flags (GameRoot.gs self3)
               ↔ (f ∈ (branch c direction).1.2
                  ∨ f ∈ GameState.flags (GameRoot.gs self))
                 ∧ f ∉ (branch c direction).2) as Hmem.
  { intros f. rewrite Hflags, apply_flags_flags.
    rewrite elem_of_difference, elem_of_union, !elem_of_list_to_set.
    by subst self1. }
  destruct Hend as [(e & He & H)|[He H]].
  - apply show_end_Ok in H as (_ & final & ->). simpl.
    split; [done|]. split; [by rewrite Hstats|].
    by subst self3 self1.
  - apply next_card_Ok in H as (c' & _ & ->). simpl.
    split; [done|]. split; [by rewrite Hstats|].
    by subst self3 self1.
Qed.

(** The witness of X16: the right decision on the demo game sets its flag
    and leaves joy alone. *)
Lemma X16_witness :
  (∀ f, f ∈ GameState.flags (GameRoot.gs demo_right)
        ↔ (f ∈ (branch demo_card "R").1.2
           ∨ f ∈ GameState.flags (GameRoot.gs demo_game))
          ∧ f ∉ (branch demo_card "R").2)
  ∧ (∀ k, k ∉ ((branch demo_card "R").1.1).*1 →
       GameState.stats (GameRoot.gs demo_right) !! k
       = GameState.stats (GameRoot.gs demo_game) !! k).
Proof.
  pose proof (X16_decide_resolves_one_branch demo_game "R" demo_card []
                demo_right [] eq_refl eq_refl) as (Hflags & Hstats & _).
  split; [exact Hflags|exact Hstats].
Defined.

Lemma show_end_keys self title body tape r :
  GameRoot.show_end self title body tape = Ok r →
  ∀ k, k ∈ ending_keys →
    is_Some (GameState.stats (GameRoot.gs self) !! k).
Proof.
  unfold GameRoot.show_end. simpl. intros H.
  inv_bind H. apply getitem_Ok in Hstep as [H1 ->].
  inv_bind H. apply getitem_Ok in Hstep as [H2 ->].
  inv_bind H. apply getitem_Ok in Hstep as [H3 ->].
  inv_bind H. apply getitem_Ok in Hstep as [H4 ->].
  inv_bind H. apply getitem_Ok in Hstep as [H5 ->].
  intros k Hk. unfold ending_keys in Hk.
  repeat (apply elem_of_cons in Hk as [->|Hk]); eauto.
  by apply elem_of_nil in Hk.
Qed.

(** X17. The five stats joy, sadness, anger, fear and calm are required:
    in a game of a deck that does not declare one of them, no decision on
    a card ever returns; each one raises. *)
Theorem X17_five_stats_required tr deck g k c direction tape :
  reachable tr deck g →
  k ∈ ending_keys → k ∉ deck_stats deck →
  current_card g = Some c →
  ∃ e, GameRoot.decide g direction tape = Raise e.
Proof.
  intros Hg Hk Hnot Hc.
  destruct (GameRoot.decide g direction tape) as [[g' tape']|e] eqn:H;
    [exfalso|eauto].
  pose proof (reachable_inv _ _ _ Hg) as [_ Hkeys _ _ _ _ _].
  pose proof (reachable_wf _ _ _ Hg) as [_ Hst _ _ _ _ _].
  destruct (decide_Ok _ _ _ _ _ _ Hc H)
    as (self1 & tape1 & self3 & Heff & Href & Hend). clear H.
  apply apply_effects_frame in Heff as (m' & Hself1 & _ & Hdom).
  apply refresh_stats_Ok in Href as (_ & rows' & Hself3 & _ & _).
  assert (GameState.stats (GameRoot.gs self3) = m') as Hstats
    by by subst self3 self1.
  assert (is_Some (m' !! k)) as Hsome.
  { rewrite <-Hstats. destruct Hend as [(e & He & H)|[He H]].
    - by eapply show_end_keys.
    - rewrite check_ending_key_scan in He.
      destruct (scan _ _) eqn:Hscan; [done|done|].
      apply elem_of_ending_keys in Hk as (low & high & Hin).
      destruct (proj1 (scan_Inside _ _) Hscan k low high Hin)
        as (v & -> & _). eauto. }
  apply Hnot. rewrite <-Hst. apply Hkeys, Hdom, Hsome.
Qed.

(** The witness of X17: the deck that declares joy alone. *)
Lemma X17_witness :
  ∃ e, GameRoot.decide joy_only_start "L" [] = Raise e.
Proof.
  apply (X17_five_stats_required tr0 joy_only_deck joy_only_start "sadness"
           demo_card "L" []).
  - apply (reach_start tr0 joy_only_deck [] joy_only_start []).
    vm_compute. reflexivity.
  - unfold ending_keys. apply elem_of_cons. right. apply elem_of_cons.
    by left.
  - intros [[=]|Hin%elem_of_nil]%elem_of_cons. done.
  - vm_compute. reflexivity.
Defined.

(** ** Decks on which nothing raises *)

Lemma roll_rollable v tape :
  rollable v →
  ∃ n tape', roll v tape = Ok (n, tape') ∧ Z.abs n < float_overflow.
Proof.
  destruct v as [n|[|lo [|hi [|x l]]]]; simpl; try done.
  - intros Hn. eauto.
  - intros (Hle & Hlo & Hhi). unfold randint, bind, draw, ret.
    destruct (lo <=? hi) eqn:Hb; [|lia].
    eexists _, _. split; [reflexivity|].
    pose proof (Z.mod_pos_bound (hd 0 tape) (hi - lo + 1)). lia.
Qed.

Lemma apply_effects_total self effects tape :
  Forall rollable effects.*2 →
  ∃ self' tape', GameRoot.apply_effects self effects tape = Ok (self', tape').
Proof.
  revert self tape.
  induction effects as [|[k v] effects IH]; intros self tape Hall; simpl.
  - by eexists _, _.
  - apply Forall_cons in Hall as [Hv Hall].
    destruct (GameState.stats (GameRoot.gs self) !! k) as [cur|]; [|eauto].
    destruct (roll_rollable v tape Hv) as (n & tape1 & Hroll & Hn).
    rewrite (bind_eq_Ok _ _ _ _ _ Hroll).
    unfold bind at 1, mul_1_5.
    destruct (float_overflow <=? Z.abs n) eqn:Hov; [lia|]. simpl.
    by apply IH.
Qed.




(** ** The first card and the end screen *)

Lemma pick_card_tape self tape c tape' :
  GameRoot.pick_card self tape = Ok (c, tape') → tape' = tl tape.
Proof.
  unfold GameRoot.pick_card, GameRoot.choices.
  destruct (GameRoot.eligible_cards self); [done|].
  destruct (float_overflow <=? _); [done|].
  unfold bind, draw, ret. by intros [= _ <-].
Qed.

(** X19. The game [start_game] returns has every declared stat at 50 and
    no other stat, no flag, turn 0, the card widget on the stage, and has
    used one draw.  The first card is a card of the deck without required
    flags, unless every card of the deck requires some flag. *)
Theorem X19_start_state tr deck tape g tape' :
  FeelingsApp.start_game tr deck tape = Ok (g, tape') →
  tape' = tl tape
  ∧ (∀ k, GameState.stats (GameRoot.gs g) !! k
          = if bool_decide (k ∈ deck_stats deck) then Some (Int 50) else None)
  ∧ GameState.flags (GameRoot.gs g) = ∅
  ∧ GameState.turn (GameRoot.gs g) = 0
  ∧ GameRoot.stage g = [CardWidget]
  ∧ ∃ c, c ∈ deck_cards deck
         ∧ GameRoot.card_id g = Some (CardDef.id c)
         ∧ (CardDef.require_flags c = []
            ∨ ∀ c', c' ∈ deck_cards deck → CardDef.require_flags c' ≠ []).
Proof.
  unfold FeelingsApp.start_game, GameRoot.init. intros H. inv_bind H.
  apply refresh_stats_Ok in Hstep as (-> & rows & -> & _ & _).
  unfold GameRoot.next_card in H. inv_bind H.
  apply ret_Ok in H as [= -> ->].
  pose proof (pick_card_tape _ _ _ _ Hstep) as ->.
  apply pick_card_Ok in Hstep. simpl.
  split; [done|]. split; [apply fresh_stats_lookup|].
  do 3 (split; [done|]).
  exists a. pose proof (eligible_cards_subseteq _ _ Hstep) as Hin.
  split; [done|]. split; [done|].
  rewrite eligible_cards_spec in Hstep. unfold spec_eligible_cards in Hstep.
  simpl in Hstep. case_decide as Hout.
  - right. intros c' Hc' Hreq.
    assert (c' ∈ filter
              (eligible_spec
                 (GameState.mk (GameRoot.fresh_stats (deck_stats deck)) ∅ 0
                    None)) (deck_cards deck)) as Hc.
    { apply list_elem_of_filter. split; [|done].
      split; [done|]. simpl. rewrite Hreq. split; [done|].
      apply Forall_forall. intros f _. apply not_elem_of_empty. }
    rewrite Hout in Hc. by apply elem_of_nil in Hc.
  - left. apply list_elem_of_filter in Hstep as [(_ & Hreq & _) _].
    simpl in Hreq. destruct (CardDef.require_flags a) as [|f l]; [done|].
    apply Forall_cons in Hreq as [Hf _]. by apply not_elem_of_empty in Hf.
Qed.

Lemma X19_witness :
  tl [4] = tl [4]
  ∧ (∀ k, GameState.stats (GameRoot.gs two_card_game) !! k
          = if bool_decide (k ∈ ending_keys) then Some (Int 50) else None).
Proof.
  pose proof (X19_start_state tr0 (mkDeck ending_keys 3 [card_A; card_B]) [4]
                (GameRoot.set_card_id (Some "A")
                   (GameRoot.set_gs
                      (GameState.set_last_card_id (Some "A")
                         (GameRoot.gs two_card_game)) two_card_game))
                (tl [4]) eq_refl) as (Htape & Hstats & _).
  split; [exact Htape|exact Hstats].
Defined.

Lemma show_end_final self title body tape self' tape' :
  GameRoot.show_end self title body tape = Ok (self', tape') →
  ∃ final,
    self' = GameRoot.set_stage [EndScreen title body final] self
    ∧ Some <$> final
      = (λ k, GameState.stats (GameRoot.gs self) !! k) <$> ending_keys.
Proof.
  unfold GameRoot.show_end. simpl. intros H.
  inv_bind H. apply getitem_Ok in Hstep as [H1 ->].
  inv_bind H. apply getitem_Ok in Hstep as [H2 ->].
  inv_bind H. apply getitem_Ok in Hstep as [H3 ->].
  inv_bind H. apply getitem_Ok in Hstep as [H4 ->].
  inv_bind H. apply getitem_Ok in Hstep as [H5 ->].
  apply ret_Ok in H as [= -> ->]. eexists. split; [by destruct self|].
  simpl. by rewrite H1, H2, H3, H4, H5.
Qed.

(** X20. When a decision ends the run, the end screen carries the texts of
    the ending found and, as final statistics, the values that joy,
    sadness, anger, fear and calm have in the returned game, in that
    order. *)
Theorem X20_end_screen_shows_final_stats self direction c tape self' tape' e :
  current_card self = Some c →
  GameRoot.decide self direction tape = Ok (self', tape') →
  GameRoot.check_ending_key self' tape' = Ok (Some e, tape') →
  ∃ final,
    GameRoot.stage self'
    = [EndScreen (ending_text (GameRoot.tr self) e).1
         (ending_text (GameRoot.tr self) e).2 final]
    ∧ Some <$> final
      = (λ k, GameState.stats (GameRoot.gs self') !! k) <$> ending_keys.
Proof.
  intros Hc H Hkey.
  destruct (decide_Ok _ _ _ _ _ _ Hc H)
    as (self1 & tape1 & self3 & Heff & Href & Hend). clear H.
  apply apply_effects_Ok in Heff as (m' & Hself1 & _ & _).
  apply refresh_stats_Ok in Href as (_ & rows' & Hself3 & _ & _).
  assert (GameRoot.tr self3 = GameRoot.tr self) as Htr
    by by subst self3 self1.
  destruct Hend as [(e' & He & H)|[He H]].
  - pose proof (show_end_Ok _ _ _ _ _ _ H) as [-> _].
    apply show_end_final in H as (final & Hself' & Hfinal).
    rewrite (check_ending_key_ext self' self3) in Hkey by by subst self'.
    rewrite He in Hkey. injection Hkey as ->.
    exists final. rewrite <-Htr. split; by subst self'.
  - apply next_card_Ok in H as (c' & _ & Hself').
    apply (check_ending_key_any_tape _ _ tape') in He.
    rewrite (check_ending_key_ext self' self3) in Hkey by by subst self'.
    congruence.
Qed.

Lemma X20_witness :
  ∃ final,
    GameRoot.stage demo_ended
    = [EndScreen (ending_text (GameRoot.tr demo_game) JOY_LOW).1
         (ending_text (GameRoot.tr demo_game) JOY_LOW).2 final]
    ∧ Some <$> final
      = (λ k, GameState.stats (GameRoot.gs demo_ended) !! k) <$> ending_keys.
Proof.
  apply (X20_end_screen_shows_final_stats demo_game "L" demo_card []
           demo_ended [] JOY_LOW); vm_compute; reflexivity.
Defined.

(** ** The values a stat takes *)

Lemma clamp_stored cur n :
  stored_value (clamp (num_add cur (Float (3 * n))) (Int 0) (Int 100)).
Proof.
  assert (∃ h, num_add cur (Float (3 * n)) = Float h) as [h ->].
  { destruct cur; simpl; eauto. }
  destruct (decide (h ≤ 0)) as [Hlo|Hlo].
  { rewrite clamp_low by done. by left. }
  destruct (decide (200 ≤ h)) as [Hhi|Hhi].
  { rewrite clamp_high by done. right. right. by left. }
  rewrite clamp_inside by (simpl; lia).
  right. right. right. exists h. split; [done|lia].
Qed.

Lemma apply_effects_stored self effects tape self' tape' :
  stored_values (GameState.stats (GameRoot.gs self)) →
  GameRoot.apply_effects self effects tape = Ok (self', tape') →
  stored_values (GameState.stats (GameRoot.gs self')).
Proof.
  revert self tape.
  induction effects as [|[k v] effects IH]; intros self tape Hin H;
    simpl in H.
  - by apply ret_Ok in H as [= -> ->].
  - destruct (GameState.stats (GameRoot.gs self) !! k) as [cur|] eqn:Hk;
      [|by eapply IH].
    inv_bind H. inv_bind H. unfold mul_1_5 in Hstep0.
    case_match; [discriminate|]. apply ret_Ok in Hstep0 as [= -> ->].
    eapply IH; [|exact H]. simpl. intros k' v'.
    destruct (decide (k = k')) as [<-|Hne].
    + rewrite lookup_insert_eq. intros [= <-]. apply clamp_stored.
    + rewrite lookup_insert_ne by done. apply Hin.
Qed.

Lemma fresh_stats_stored ks : stored_values (GameRoot.fresh_stats ks).
Proof.
  intros k v. rewrite fresh_stats_lookup. case_bool_decide; [|done].
  intros [= <-]. right. by left.
Qed.

Lemma reachable_stored tr deck g :
  reachable tr deck g → stored_values (GameState.stats (GameRoot.gs g)).
Proof.
  induction 1 as [tape g tape' H|g d tape g' tape' _ IH H
                 |g ti bo fi tape g' tape' _ IH _ H].
  - unfold FeelingsApp.start_game, GameRoot.init in H. inv_bind H.
    apply refresh_stats_Ok in Hstep as (-> & rows & -> & _ & _).
    apply next_card_Ok in H as (c & _ & ->). simpl.
    apply fresh_stats_stored.
  - destruct (current_card g) as [c|] eqn:Hc.
    2:{ rewrite decide_no_card in H by done. by injection H as <- <-. }
    destruct (decide_Ok _ _ _ _ _ _ Hc H)
      as (self1 & tape1 & self3 & Heff & Href & Hend). clear H.
    apply apply_effects_stored in Heff; [|done].
    apply refresh_stats_Ok in Href as (_ & rows' & -> & _ & _).
    destruct Hend as [(e & _ & H)|[_ H]].
    + by apply show_end_Ok in H as (_ & final & ->).
    + by apply next_card_Ok in H as (c' & _ & ->).
  - unfold GameRoot.restart in H. inv_bind H.
    apply refresh_stats_Ok in Hstep as (-> & rows & -> & _ & _).
    apply next_card_Ok in H as (c & _ & ->). simpl.
    apply fresh_stats_stored.
Qed.

(** X21. In a reachable game a stat value is the integer 50 it started
    with, the integer 0 or 100, or a float strictly between 0 and 100: once
    an effect has touched a stat it is stored as a float unless it sits on
    a bound.  So a stat is at a boundary exactly when it is the integer 0
    or the integer 100. *)
Theorem X21_stored_values tr deck g k v :
  reachable tr deck g →
  GameState.stats (GameRoot.gs g) !! k = Some v →
  stored_value v
  ∧ (at_boundary v = true ↔ v = Int 0 ∨ v = Int 100).
Proof.
  intros Hg Hk. pose proof (reachable_stored _ _ _ Hg k v Hk) as Hv.
  split; [done|]. unfold at_boundary, num_leb.
  destruct Hv as [->|[->|[->|(h & -> & Hh)]]]; simpl.
  - split; [by left|done].
  - split; [done|]. by intros [|].
  - split; [by right|done].
  - split.
    + intros [?%Z.leb_le|?%Z.leb_le]%orb_true_iff; lia.
    + by intros [|].
Qed.

Lemma X21_witness :
  stored_value (Int 0)
  ∧ (at_boundary (Int 0) = true ↔ Int 0 = Int 0 ∨ Int 0 = Int 100).
Proof.
  apply (X21_stored_values tr0 demo_deck demo_ended "joy" (Int 0)).
  - apply (reach_decide tr0 demo_deck demo_game "L" [] demo_ended []).
    + apply (reach_start tr0 demo_deck [] demo_game []).
      vm_compute. reflexivity.
    + vm_compute. reflexivity.
  - vm_compute. reflexivity.
Defined.

(** ** A range the wrong way round *)

Lemma apply_effects_app self (pre post : list (string * EffectValue)) tape :
  GameRoot.apply_effects self (pre ++ post)%list tape
  = bind (GameRoot.apply_effects self pre)
      (λ self1, GameRoot.apply_effects self1 post) tape.
Proof.
  revert self tape. induction pre as [|[k v] pre IH]; intros self tape.
  - reflexivity.
  - cbn [app GameRoot.apply_effects].
    destruct (GameState.stats (GameRoot.gs self) !! k) as [cur|]; [|apply IH].
    unfold bind in *. destruct (roll v tape) as [[n tape1]|e]; [|done].
    destruct (mul_1_5 n tape1) as [[p tape2]|e]; [|done].
    apply IH.
Qed.

(** X22. A range with [lo > hi] on a stat of the game fails when its turn
    to be rolled comes: if the effects before it in the chosen branch are
    rollable, the decision raises [ValueError]. *)
Theorem X22_inverted_range_raises self direction c tape
    (pre post : list (string * EffectValue)) k lo hi :
  current_card self = Some c →
  (branch c direction).1.1 = (pre ++ (k, EList [lo; hi]) :: post)%list →
  Forall rollable pre.*2 →
  is_Some (GameState.stats (GameRoot.gs self) !! k) →
  hi < lo →
  GameRoot.decide self direction tape = Raise ValueError.
Proof.
  intros Hc Hbranch Hpre Hk Hlt.
  rewrite (decide_unfold _ _ _ _ Hc), Hbranch. apply bind_eq_Raise.
  rewrite apply_effects_app.
  destruct (apply_effects_total self pre tape Hpre) as (self1 & tape1 & Heff).
  rewrite (bind_eq_Ok _ _ _ _ _ Heff).
  apply apply_effects_frame in Heff as (m' & -> & _ & Hdom).
  apply Hdom in Hk as [cur Hcur].
  cbn [GameRoot.apply_effects]. simpl. rewrite Hcur.
  apply bind_eq_Raise. unfold roll, randint.
  destruct (lo <=? hi) eqn:Hle; [lia|done].
Qed.

(** The witness of X22: the right branch of the bad card. *)
Lemma X22_witness : GameRoot.decide bad_game "R" [] = Raise ValueError.
Proof.
  apply (X22_inverted_range_raises bad_game "R" bad_card [] [] [] "joy" 3 1).
  - vm_compute. reflexivity.
  - reflexivity.
  - apply Forall_nil. done.
  - vm_compute. eauto.
  - lia.
Defined.
